(** * MMLU evaluation harness: prompt builder, scorer and aggregator

    A shallow embedding of [module.py] (the metric [LogitAccuracy], the data
    module [MMLUDataModule], the Lightning module [MMLUModel]) and of the
    aggregation loop of [eval.py], with the properties the specification
    states about them.

    Conventions.
    - Python [str] is [string]; a character stands for the code point with
      the same number (0..255).
    - Python [int] is [Z]; list positions and row numbers are [nat].
    - A [while] loop is a [Fixpoint] on a fuel argument: [OutOfFuel] for
      every fuel means that the loop does not terminate.
    - An exception is the outcome [Raise e]; the object state reached when
      it is raised is returned next to it.
    - The tokenizer, the network and the helpers of [utils.py] and
      [categories.py] are parameters. *)

From Stdlib Require Import ZArith QArith Qround Lia String Ascii List.
From stdpp Require Import base option list gmap strings sorting.

Open Scope Z_scope.
Open Scope string_scope.

(* ===================================================================== *)
(** ** Python strings *)
(* ===================================================================== *)

Module PyStr.

(** [c.isspace()] on the code points below 256. *)
Definition isspace (c : ascii) : bool :=
  let n := nat_of_ascii c in
  ((9 <=? n) && (n <=? 13) || (28 <=? n) && (n <=? 32)
   || (n =? 133) || (n =? 160))%nat.

Fixpoint lstrip_chars (l : list ascii) : list ascii :=
  match l with
  | [] => []
  | c :: l' => if isspace c then lstrip_chars l' else l
  end.

Definition lstrip (s : string) : string :=
  string_of_list_ascii (lstrip_chars (list_ascii_of_string s)).

Definition rstrip (s : string) : string :=
  string_of_list_ascii
    (rev (lstrip_chars (rev (list_ascii_of_string s)))).

(** [s.strip()] *)
Definition strip (s : string) : string := rstrip (lstrip s).

(** [needle in hay] *)
Fixpoint contains (needle hay : string) : bool :=
  String.prefix needle hay
  || match hay with
     | EmptyString => false
     | String _ hay' => contains needle hay'
     end.

End PyStr.

(* ===================================================================== *)
(** ** Outcomes of a Python call *)
(* ===================================================================== *)

Inductive exn : Set :=
| NotImplementedError
| UnboundLocalError
| IndexError
| KeyError
| ValueError
| ZeroDivisionError.

Inductive outcome (A : Type) : Type :=
| Ok (a : A)
| Raise (e : exn)
| OutOfFuel.

Arguments Ok {A} a.
Arguments Raise {A} e.
Arguments OutOfFuel {A}.

Definition obind {A B} (o : outcome A) (f : A → outcome B) : outcome B :=
  match o with
  | Ok a => f a
  | Raise e => Raise e
  | OutOfFuel => OutOfFuel
  end.

Definition of_option {A} (e : exn) (o : option A) : outcome A :=
  match o with
  | Some a => Ok a
  | None => Raise e
  end.

(** A call per element, in order, up to the first that does not return. *)
Fixpoint omap {A B} (f : A → outcome B) (l : list A) : outcome (list B) :=
  match l with
  | [] => Ok []
  | x :: l' => obind (f x) (fun y => obind (omap f l') (fun ys => Ok (y :: ys)))
  end.

Definition is_ok {A} (o : outcome A) : bool :=
  match o with Ok _ => true | _ => false end.

(** A method of an object with state [S]: the outcome and the state the
    object is left in. *)
Definition method (S A : Type) : Type := S → outcome A * S.

Definition ret {S A} (a : A) : method S A := fun s => (Ok a, s).

Definition raise {S A} (e : exn) : method S A := fun s => (Raise e, s).

Definition lift {S A} (o : outcome A) : method S A := fun s => (o, s).

Definition bind {S A B} (m : method S A) (f : A → method S B) : method S B :=
  fun s =>
    match m s with
    | (Ok a, s') => f a s'
    | (Raise e, s') => (Raise e, s')
    | (OutOfFuel, s') => (OutOfFuel, s')
    end.

Definition modify {S} (f : S → S) : method S unit := fun s => (Ok tt, f s).

Notation "'do' x <- m ; k" := (bind m (fun x => k))
  (at level 10, x name, m at level 100, k at level 200).
Notation "'run' m ; k" := (bind m (fun _ => k))
  (at level 10, m at level 100, k at level 200).

(* ===================================================================== *)
(** ** The tokenizer *)
(* ===================================================================== *)

(** What the code uses of the tokenizer object. *)
Record Tokenizer : Type := {
  (** [tokenizer(text).input_ids], with no truncation and no padding *)
  input_ids : string → list Z;
  (** [tokenizer.decode(ids, skip_special_tokens=True)] *)
  decode : list Z → string;
  pad_token_id : Z
}.

(** [tokenizer.batch_decode(rows, skip_special_tokens=True)] *)
Definition batch_decode (tok : Tokenizer) (rows : list (list Z)) : list string :=
  map (decode tok) rows.

(* ===================================================================== *)
(** ** Tables *)
(* ===================================================================== *)

(** A row of a subject table: question, answer options, gold letter (the
    last column). *)
Record Row : Type := {
  question : string;
  options : list string;
  gold : string
}.

Abbreviation DataFrame := (list Row).

(** [df.index] *)
Definition index (df : DataFrame) : list nat := seq 0 (length df).

(** [df.iloc[i, df.shape[1] - 1]] *)
Definition iloc_last (df : DataFrame) (i : nat) : outcome string :=
  of_option IndexError (gold <$> df !! i).

(** An entry [{"input": prompt, "output": label}] of a data set. *)
Record Example : Type := {
  input : string;
  output : string
}.

(* ===================================================================== *)
(** ** [MMLUDataModule]: the prompt builder *)
(* ===================================================================== *)

(** The attributes [prepare_data] assigns. *)
Record DataModule : Type := {
  testset : list Example;
  valset : list Example
}.

Definition set_testset (l : list Example) (self : DataModule) : DataModule :=
  {| testset := l; valset := valset self |}.

Definition set_valset (l : list Example) (self : DataModule) : DataModule :=
  {| testset := testset self; valset := l |}.

Section PromptBuilder.

(** [from utils import format_example, gen_prompt] *)
Variable format_example : DataFrame → nat → bool → string.
Variable gen_prompt : DataFrame → string → Z → string.

(** The attributes [__init__] sets. *)
Variable tokenizer : Tokenizer.
Variable subject : string.
Variable ntrain : Z.
Variable dev_df test_df : DataFrame.
Variable prompt_dir : option string.

(** [tokenizer(prompt, return_tensors="pt").input_ids.shape[-1]] *)
Definition prompt_len (prompt : string) : Z :=
  Z.of_nat (length (input_ids tokenizer prompt)).

(** The loop condition of both [while] loops. *)
Definition over_budget (prompt : string) : bool :=
  (2048 <? prompt_len prompt)%Z.

(** The prompt the test loop holds when its counter is [k]. *)
Definition prompt_at (prompt_end : string) (k : Z) : string :=
  gen_prompt dev_df subject k ++ prompt_end.

(** The zero-shot prompt of development row [i]. *)
Definition zero_shot (i : nat) : string :=
  gen_prompt dev_df subject 0 ++ format_example dev_df i false.

(** Lines 113-116: the [while] loop of the test set. It leaves [k] and
    [prompt]. *)
Fixpoint shrink (fuel : nat) (prompt_end : string) (k : Z) (prompt : string)
  : outcome (Z * string) :=
  if over_budget prompt then
    match fuel with
    | O => OutOfFuel
    | S fuel' =>
        let k := k - 1 in
        let train_prompt := gen_prompt dev_df subject k in
        shrink fuel' prompt_end k (train_prompt ++ prompt_end)
    end
  else Ok (k, prompt).

(** Lines 131-134: the [while] loop of the validation set. The local [k]
    is the one the test loop left; it is unbound when the test table had
    no row. *)
Fixpoint shrink_val (fuel : nat) (prompt_end : string) (k : option Z)
  (prompt : string) : outcome (option Z * string) :=
  if over_budget prompt then
    match k with
    | None => Raise UnboundLocalError
    | Some kv =>
        match fuel with
        | O => OutOfFuel
        | S fuel' =>
            let k := Some (kv - 1) in
            let train_prompt := gen_prompt dev_df subject 0 in
            shrink_val fuel' prompt_end k (train_prompt ++ prompt_end)
        end
    end
  else Ok (k, prompt).

(** Lines 108-123: the body of [for i in self.test_df.index]. *)
Definition test_body (fuel : nat) (i : nat) : method DataModule (option Z) :=
  let k := ntrain in
  let prompt_end := format_example test_df i false in
  let train_prompt := gen_prompt dev_df subject k in
  let prompt := train_prompt ++ prompt_end in
  do kp <- lift (shrink fuel prompt_end k prompt);
  let '(k, prompt) := kp in
  do label <- lift (iloc_last test_df i);
  let entry := {| input := prompt; output := label |} in
  run modify (fun self => set_testset (testset self ++ [entry])%list self);
  ret (Some k).

(** Lines 127-141: the body of [for i in self.dev_df.index]. *)
Definition val_body (fuel : nat) (k : option Z) (i : nat)
  : method DataModule (option Z) :=
  let prompt_end := format_example dev_df i false in
  let train_prompt := gen_prompt dev_df subject 0 in
  let prompt := train_prompt ++ prompt_end in
  do kp <- lift (shrink_val fuel prompt_end k prompt);
  let '(k, prompt) := kp in
  do label <- lift (iloc_last dev_df i);
  let entry := {| input := prompt; output := label |} in
  run modify (fun self => set_valset (valset self ++ [entry])%list self);
  ret k.

Fixpoint for_test (fuel : nat) (idx : list nat) (k : option Z)
  : method DataModule (option Z) :=
  match idx with
  | [] => ret k
  | i :: idx' => do k <- test_body fuel i; for_test fuel idx' k
  end.

Fixpoint for_val (fuel : nat) (idx : list nat) (k : option Z)
  : method DataModule (option Z) :=
  match idx with
  | [] => ret k
  | i :: idx' => do k <- val_body fuel k i; for_val fuel idx' k
  end.

(** [MMLUDataModule.prepare_data]. [Dataset.from_list] keeps the entries
    and their order. *)
Definition prepare_data (fuel : nat) : method DataModule unit :=
  run modify (set_testset []);
  run modify (set_valset []);
  match prompt_dir with
  | None =>
      do k <- for_test fuel (index test_df) None;
      run for_val fuel (index dev_df) k;
      ret tt
  | Some _ => raise NotImplementedError
  end.

(** Every prompt [prepare_data] builds first is within the budget: no
    loop has to shrink. *)
Definition prompts_fit : bool :=
  forallb (fun i => negb (over_budget
                            (prompt_at (format_example test_df i false) ntrain)))
    (index test_df)
  && forallb (fun i => negb (over_budget (zero_shot i))) (index dev_df).

End PromptBuilder.

(* ===================================================================== *)
(** ** [MMLUDataModule]: batches *)
(* ===================================================================== *)

(** [tokenizer.padding_side], [tokenizer.truncation_side] *)
Inductive side : Set := Left | Right.

(** A [BatchEncoding]: integer matrices under string keys. *)
Abbreviation Batch := (gmap string (list (list Z))).

Section Batches.

Variable tokenizer : Tokenizer.
Variable padding_side truncation_side : side.

(** [truncation=True, max_length=n] on one sequence. *)
Definition truncate (n : nat) (ids : list Z) : list Z :=
  match truncation_side with
  | Right => take n ids
  | Left => drop (length ids - n) ids
  end.

Definition longest (rows : list (list Z)) : nat :=
  foldr Nat.max 0%nat (map length rows).

Definition pad_to (n : nat) (fill : Z) (ids : list Z) : list Z :=
  let fillers := replicate (n - length ids) fill in
  match padding_side with
  | Right => (ids ++ fillers)%list
  | Left => (fillers ++ ids)%list
  end.

(** [padding='longest'] *)
Definition pad_longest (fill : Z) (rows : list (list Z)) : list (list Z) :=
  map (pad_to (longest rows) fill) rows.

(** [tokenizer(text=.., text_target=.., padding='longest',
    truncation=True, return_tensors="pt", max_length=n)] *)
Definition tokenizer_call (text text_target : list string) (max_length : nat)
  : Batch :=
  let enc := map (fun s => truncate max_length (input_ids tokenizer s)) text in
  let tgt :=
    map (fun s => truncate max_length (input_ids tokenizer s)) text_target in
  <["input_ids" := pad_longest (pad_token_id tokenizer) enc]>
    (<["attention_mask" :=
         pad_longest 0 (map (fun r => replicate (length r) 1) enc)]>
       (<["labels" := pad_longest (pad_token_id tokenizer) tgt]> ∅)).

(** [MMLUDataModule.collate_fn]. Unpacking [zip( *batch )] of an empty
    batch into two names raises. *)
Definition collate_fn (batch : list Example) : outcome Batch :=
  match batch with
  | [] => Raise ValueError
  | _ =>
      let input_text := map input batch in
      let output_text := map output batch in
      Ok (tokenizer_call input_text output_text 512)
  end.

(** The batches of [DataLoader(dataset, batch_size=n, collate_fn=..)]:
    rows are taken in order, a batch is closed when it has [n] rows, and
    the rest, if any, is the last batch. *)
Fixpoint batch_sampler {A} (n : nat) (batch : list A) (l : list A)
  : list (list A) :=
  match l with
  | [] => match batch with [] => [] | _ => [batch] end
  | x :: l' =>
      let batch := (batch ++ [x])%list in
      if (length batch =? n)%nat then batch :: batch_sampler n [] l'
      else batch_sampler n batch l'
  end.

(** [MMLUDataModule.test_dataloader]; [DataLoader] refuses a batch size
    that is not positive. *)
Definition test_dataloader (batch_size : Z) (self : DataModule)
  : outcome (list (list Example)) :=
  if (batch_size <=? 0)%Z then Raise ValueError
  else Ok (batch_sampler (Z.to_nat batch_size) [] (testset self)).

End Batches.

(* ===================================================================== *)
(** ** [LogitAccuracy]: the scorer *)
(* ===================================================================== *)

(** The floating-point operations the scorer reaches through [softmax] and
    [argmax], as an interface. *)
Class FloatOps (F : Type) : Type := {
  fzero : F;
  fexp : F → F;
  fadd : F → F → F;
  fdiv : F → F → F;
  (** [x <= y] *)
  fleb : F → F → bool;
  fisnan : F → bool;
  fleb_refl : ∀ x, fisnan x = false → fleb x x = true;
  fleb_trans : ∀ x y z, fleb x y = true → fleb y z = true → fleb x z = true;
  fleb_total : ∀ x y,
    fisnan x = false → fisnan y = false → fleb x y = true ∨ fleb y x = true
}.

Section Tensors.

Context {F : Type} `{FloatOps F}.

(** [torch.nn.functional.softmax(v, dim=0)] of a vector. *)
Definition softmax (v : list F) : list F :=
  let e := map fexp v in
  let s := foldl fadd fzero e in
  map (fun x => fdiv x s) e.

(** The scan of [np.argmax]: the first position of the maximum, a NaN
    counting as maximal. [mp] is the running maximum, at [max_ind]. *)
Fixpoint argmax_scan (mp : F) (max_ind i : nat) (v : list F) : nat :=
  match v with
  | [] => max_ind
  | x :: v' =>
      if fleb x mp then argmax_scan mp max_ind (S i) v'
      else if fisnan x then i
      else argmax_scan x i (S i) v'
  end.

Definition argmax (v : list F) : outcome nat :=
  match v with
  | [] => Raise ValueError
  | x :: v' => Ok (if fisnan x then 0%nat else argmax_scan x 0 1 v')
  end.

(** [t[i]] on a vector, [i] an integer: negative indices count from the
    end. *)
Definition tensor_get {A} (t : list A) (i : Z) : outcome A :=
  let n := Z.of_nat (length t) in
  if ((0 <=? i) && (i <? n))%Z then of_option IndexError (t !! Z.to_nat i)
  else if ((- n <=? i) && (i <? 0))%Z
       then of_option IndexError (t !! Z.to_nat (n + i))
       else Raise IndexError.

End Tensors.

(** The attributes of the metric: the two registered states and the two
    lists. *)
Record Metric : Type := {
  total : Z;
  correct : Z;
  all_preds : list string;
  all_golds : list string
}.

Definition add_total (n : Z) (self : Metric) : Metric :=
  {| total := total self + n; correct := correct self;
     all_preds := all_preds self; all_golds := all_golds self |}.

Definition add_correct (b : bool) (self : Metric) : Metric :=
  {| total := total self; correct := correct self + Z.b2z b;
     all_preds := all_preds self; all_golds := all_golds self |}.

Definition extend_preds (l : list string) (self : Metric) : Metric :=
  {| total := total self; correct := correct self;
     all_preds := (all_preds self ++ l)%list; all_golds := all_golds self |}.

Definition extend_golds (l : list string) (self : Metric) : Metric :=
  {| total := total self; correct := correct self;
     all_preds := all_preds self; all_golds := (all_golds self ++ l)%list |}.

(** [{0: "A", 1: "B", 2: "C", 3: "D"}[n]] *)
Definition letter (n : nat) : outcome string :=
  match n with
  | 0%nat => Ok "A"
  | 1%nat => Ok "B"
  | 2%nat => Ok "C"
  | 3%nat => Ok "D"
  | _ => Raise KeyError
  end.

Definition letters : list string := ["A"; "B"; "C"; "D"].

Section Scorer.

Context {F : Type} `{FloatOps F}.

Variable tokenizer : Tokenizer.
Variable model_name : string.

(** ["alpaca" in self.model_name] *)
Definition alpaca : bool := PyStr.contains "alpaca" model_name.

(** [l[0]] and [l[-1]] on a Python list. *)
Definition py_first {A} (l : list A) : outcome A := of_option IndexError (head l).
Definition py_last {A} (l : list A) : outcome A := of_option IndexError (last l).

(** Lines 30-33: [logits[:, -1, :]] or [logits[:, 0, :]]. *)
Definition select_position (logits : list (list (list F)))
  : outcome (list (list F)) :=
  omap (fun seq => if alpaca then py_last seq else py_first seq) logits.

(** [torch.tensor([logit[tokenizer("A").input_ids[j]], ..])], with [pick]
    for the subscript [j]. *)
Definition gather (pick : list Z → outcome Z) (logit : list F)
  : outcome (list F) :=
  obind (pick (input_ids tokenizer "A")) (fun ia =>
  obind (tensor_get logit ia) (fun a =>
  obind (pick (input_ids tokenizer "B")) (fun ib =>
  obind (tensor_get logit ib) (fun b =>
  obind (pick (input_ids tokenizer "C")) (fun ic =>
  obind (tensor_get logit ic) (fun c =>
  obind (pick (input_ids tokenizer "D")) (fun id =>
  obind (tensor_get logit id) (fun d =>
  Ok [a; b; c; d])))))))).

(** Lines 40-73: the prediction for one example. *)
Definition predict (logit : list F) : outcome string :=
  obind (gather py_first logit) (fun v =>
  let probs := softmax v in
  obind (if alpaca
         then obind (gather py_last logit) (fun v => Ok (softmax v))
         else Ok probs) (fun probs =>
  obind (argmax probs) letter)).

(** Lines 37-75: [for i in range(logits.shape[0])], from row [i] on. *)
Fixpoint score_rows (logits : list (list F)) (i : nat) (labels : list string)
  (preds : list string) : method Metric (list string) :=
  match logits with
  | [] => ret preds
  | logit :: logits' =>
      do label <- lift (of_option IndexError (labels !! i));
      do pred <- lift (predict logit);
      let preds := (preds ++ [pred])%list in
      run modify (add_correct (String.eqb (PyStr.strip pred) (PyStr.strip label)));
      score_rows logits' (S i) labels preds
  end.

(** [LogitAccuracy.update] *)
Definition update (logits : list (list (list F))) (labels : list (list Z))
  : method Metric unit :=
  run modify (add_total (Z.of_nat (length logits)));
  let labels := batch_decode tokenizer labels in
  do logits <- lift (select_position logits);
  do preds <- score_rows logits 0 labels [];
  run modify (extend_preds preds);
  modify (extend_golds labels).

(** *** The scorer as the specification words it *)

(** The token id of an answer letter: the first sub-token id of the
    string for a standard model, the last one for an instruction-tuned
    model. *)
Definition spec_token_id (s : string) : outcome Z :=
  if alpaca then py_last (input_ids tokenizer s)
  else py_first (input_ids tokenizer s).

(** The four logit values at the token ids of "A", "B", "C", "D". *)
Definition spec_gather (logit : list F) : outcome (list F) :=
  omap (fun s => obind (spec_token_id s) (tensor_get logit)) letters.

(** Softmax over these four values, then the letter of the maximum. *)
Definition spec_predict (logit : list F) : outcome string :=
  obind (spec_gather logit) (fun v => obind (argmax (softmax v)) letter).

(** The number of predictions equal to their gold label, both trimmed. *)
Definition matches (preds golds : list string) : Z :=
  foldr Z.add 0
    (zip_with (fun p g => Z.b2z (String.eqb (PyStr.strip p) (PyStr.strip g)))
       preds golds).

End Scorer.

(* ===================================================================== *)
(** ** [MMLUModel]: the inference adapter *)
(* ===================================================================== *)

Section Adapter.

Context {F : Type} `{FloatOps F}.

Variable tokenizer : Tokenizer.
Variable model_name : string.

(** [self.model( **batch ).logits]: batch, sequence position, vocabulary. *)
Variable model : Batch → list (list (list F)).

(** [batch.pop("labels")]: the value and the dictionary without the key. *)
Definition pop_labels (batch : Batch) : outcome (list (list Z) * Batch) :=
  of_option KeyError
    ((fun labels => (labels, delete "labels" batch)) <$> batch !! "labels").

(** Lines 183-186 of [test_step]: the labels and the dictionary that is
    passed to the network. *)
Definition take_labels (batch : Batch) : outcome (list (list Z) * Batch) :=
  if alpaca model_name then pop_labels batch
  else of_option KeyError ((fun labels => (labels, batch)) <$> batch !! "labels").

(** [MMLUModel.test_step], on the metric. It returns the dictionary as
    the step leaves it, which is the one the network was called with. *)
Definition test_step (batch : Batch) : method Metric Batch :=
  do lb <- lift (take_labels batch);
  let '(labels, batch) := lb in
  let logits := model batch in
  run update tokenizer model_name logits labels;
  ret batch.

(** [MMLUModel.on_test_start]: [metric.reset()] and the two lists. *)
Definition on_test_start : method Metric unit :=
  modify (fun _ => {| total := 0; correct := 0; all_preds := []; all_golds := [] |}).

(** The dictionary the network is called with, as the specification
    words it: without the labels for an instruction-tuned model. *)
Definition forward_batch (batch : Batch) : Batch :=
  if alpaca model_name then delete "labels" batch else batch.

(** The logits of a batch of [n] examples can be scored: one entry per
    example, and a prediction for each at the selected position. *)
Definition well_shaped (logits : list (list (list F))) (n : nat) : bool :=
  (length logits =? n)%nat
  && is_ok (obind (select_position model_name logits)
              (omap (predict tokenizer model_name))).

Variable padding_side truncation_side : side.

(** The test loop of the trainer over the batches of a loader. *)
Fixpoint test_loop (batches : list (list Example)) : method Metric unit :=
  match batches with
  | [] => ret tt
  | b :: batches' =>
      do batch <- lift (collate_fn tokenizer padding_side truncation_side b);
      run test_step batch;
      test_loop batches'
  end.

(** [trainer.test(model, dataloaders=data_module.test_dataloader())] *)
Definition trainer_test (batch_size : Z) (data_module : DataModule)
  : method Metric unit :=
  do batches <- lift (test_dataloader batch_size data_module);
  run on_test_start;
  test_loop batches.

(** Every batch of the loader is collated and its logits can be scored. *)
Definition batches_ok (batches : list (list Example)) : bool :=
  forallb (fun b =>
             match collate_fn tokenizer padding_side truncation_side b with
             | Ok enc => well_shaped (model (forward_batch enc)) (length b)
             | _ => false
             end) batches.

End Adapter.

(* ===================================================================== *)
(** ** [eval.py]: the aggregator *)
(* ===================================================================== *)

(** A pair [(cor, total)] of one subject. *)
Abbreviation Cors := (list (Z * Z)).

Definition sum_cors (l : Cors) : Z := foldr Z.add 0 (map fst l).
Definition sum_totals (l : Cors) : Z := foldr Z.add 0 (map snd l).

(** Lines 71-72, 76-77 and 80-81: [cors, totals = zip( *l )] and
    [sum(cors) / sum(totals)], as the exact quotient. *)
Definition accuracy (l : Cors) : outcome Q :=
  match l with
  | [] => Raise ValueError
  | _ =>
      if (sum_totals l =? 0)%Z then Raise ZeroDivisionError
      else Ok (inject_Z (sum_cors l) / inject_Z (sum_totals l))%Q
  end.

(** The three accumulators of [main]. *)
Record Agg : Type := {
  all_cors : Cors;
  subcat_cors : gmap string Cors;
  cat_cors : gmap string Cors
}.

Section Aggregator.

(** [from categories import subcategories, categories]: the two
    dictionaries, from a subject to its subcategories and from a category
    to its subcategories. *)
Variable subcategories : gmap string (list string).
Variable categories : gmap string (list string).

(** [d[key].append(x)] *)
Definition append_at (key : string) (x : Z * Z) (d : gmap string Cors)
  : outcome (gmap string Cors) :=
  of_option KeyError
    ((fun l => <[key := (l ++ [x])%list]> d) <$> d !! key).

(** Lines 46-49: the empty accumulators. *)
Definition all_subcats : list string :=
  concat (map snd (map_to_list subcategories)).

Definition init_subcat_cors : gmap string Cors :=
  foldr (fun subcat d => <[subcat := []]> d) ∅ all_subcats.

Definition init_cat_cors : gmap string Cors := (fun _ => []) <$> categories.

Definition init_agg : Agg :=
  {| all_cors := []; subcat_cors := init_subcat_cors;
     cat_cors := init_cat_cors |}.

(** Lines 65-67: [for key in categories.keys()]. *)
Fixpoint for_keys (keys : list (string * list string)) (subcat : string)
  (x : Z * Z) (d : gmap string Cors) : outcome (gmap string Cors) :=
  match keys with
  | [] => Ok d
  | (key, members) :: keys' =>
      if bool_decide (subcat ∈ members)
      then obind (append_at key x d) (for_keys keys' subcat x)
      else for_keys keys' subcat x d
  end.

(** Lines 63-67: [for subcat in subcats]. *)
Fixpoint for_subcats (subcats : list string) (x : Z * Z) (a : Agg)
  : outcome Agg :=
  match subcats with
  | [] => Ok a
  | subcat :: subcats' =>
      obind (append_at subcat x (subcat_cors a)) (fun sc =>
      obind (for_keys (map_to_list categories) subcat x (cat_cors a)) (fun cc =>
      for_subcats subcats' x
        {| all_cors := all_cors a; subcat_cors := sc; cat_cors := cc |}))
  end.

(** Lines 59-68: what one subject, with its counters [(cor, total)], adds. *)
Definition record_subject (subject : string) (x : Z * Z) (a : Agg)
  : outcome Agg :=
  obind (of_option KeyError (subcategories !! subject)) (fun subcats =>
  obind (for_subcats subcats x a) (fun a =>
  Ok {| all_cors := (all_cors a ++ [x])%list;
        subcat_cors := subcat_cors a; cat_cors := cat_cors a |})).

(** Lines 51-68: [for subject in subjects], on the counters each subject
    ended with. *)
Fixpoint for_subjects (results : list (string * (Z * Z))) (a : Agg)
  : outcome Agg :=
  match results with
  | [] => Ok a
  | (subject, x) :: results' =>
      obind (record_subject subject x a) (for_subjects results')
  end.

(** Lines 70-73 for one subcategory, 75-78 for one category, 80-82. *)
Definition subcat_acc (a : Agg) (subcat : string) : outcome Q :=
  obind (of_option KeyError (subcat_cors a !! subcat)) accuracy.

Definition cat_acc (a : Agg) (cat : string) : outcome Q :=
  obind (of_option KeyError (cat_cors a !! cat)) accuracy.

Definition weighted_acc (a : Agg) : outcome Q := accuracy (all_cors a).

(** *** The aggregation as the specification words it *)

(** [subject] is a member of [subcat]; of [cat], through one of its
    subcategories. *)
Definition subcats_of (subject : string) : list string :=
  default [] (subcategories !! subject).

Definition cat_has (cat subcat : string) : bool :=
  match categories !! cat with
  | Some members => bool_decide (subcat ∈ members)
  | None => false
  end.

Definition in_subcat (subcat subject : string) : bool :=
  bool_decide (subcat ∈ subcats_of subject).

Definition in_cat (cat subject : string) : bool :=
  existsb (cat_has cat) (subcats_of subject).


(** The number of times the code records a subject under a key: once per
    occurrence of the subcategory in its list, and for a category once
    per subcategory of the subject that the category has. *)
Definition subcat_hits (subcat subject : string) : nat :=
  length (filter (fun sc => sc = subcat) (subcats_of subject)).

Definition cat_hits (cat subject : string) : nat :=
  length (filter (fun sc => cat_has cat sc = true) (subcats_of subject)).

Definition recorded (hits : string → nat) (results : list (string * (Z * Z)))
  : Cors :=
  concat (map (fun r => replicate (hits (fst r)) (snd r)) results).


End Aggregator.

(** Sums first, one division. *)
Definition ratio (l : Cors) : Q :=
  (inject_Z (sum_cors l) / inject_Z (sum_totals l))%Q.


(* ===================================================================== *)
(** ** [MMLUModel]: the prediction dump and the validation hooks *)
(* ===================================================================== *)

Definition tab : string := String (ascii_of_nat 9) EmptyString.
Definition newline : string := String (ascii_of_nat 10) EmptyString.

(** [MMLUModel.save_preds]: the strings written to the file, in order. *)
Definition save_preds (metric : Metric) : list string :=
  zip_with (fun pred gold => pred ++ tab ++ gold ++ newline)
    (all_preds metric) (all_golds metric).

Section Validation.

Variable tokenizer : Tokenizer.
Variable model_name : string.
Variable padding_side truncation_side : side.

(** [self.model( **batch ).loss.item()] *)
Variable Loss : Type.
Variable loss : Batch → Loss.

(** [MMLUModel.on_validation_start], on [self.val_loss]. *)
Definition on_validation_start : method (list Loss) unit :=
  modify (fun _ => []).

(** [MMLUModel.validation_step] *)
Definition validation_step (batch : Batch) : method (list Loss) unit :=
  if alpaca model_name then raise NotImplementedError
  else modify (fun val_loss => (val_loss ++ [loss batch])%list).

(** [MMLUDataModule.val_dataloader] *)
Definition val_dataloader (batch_size : Z) (self : DataModule)
  : outcome (list (list Example)) :=
  if (batch_size <=? 0)%Z then Raise ValueError
  else Ok (batch_sampler (Z.to_nat batch_size) [] (valset self)).

(** The validation loop of the trainer over the batches of a loader. *)
Fixpoint validation_loop (batches : list (list Example))
  : method (list Loss) unit :=
  match batches with
  | [] => ret tt
  | b :: batches' =>
      do batch <- lift (collate_fn tokenizer padding_side truncation_side b);
      run validation_step batch;
      validation_loop batches'
  end.

Definition trainer_validate (batch_size : Z) (data_module : DataModule)
  : method (list Loss) unit :=
  do batches <- lift (val_dataloader batch_size data_module);
  run on_validation_start;
  validation_loop batches.

(** Decoding the label rows of every batch gives back the labels of its
    examples. *)
Definition decodes_labels (batches : list (list Example)) : bool :=
  forallb (fun b =>
             match collate_fn tokenizer padding_side truncation_side b with
             | Ok enc =>
                 bool_decide
                   (batch_decode tokenizer (default [] (enc !! "labels"))
                    = map output b)
             | _ => false
             end) batches.

End Validation.

(* ===================================================================== *)
(** ** [eval.py]: the subjects, the main loop and the report *)
(* ===================================================================== *)

(** [s.split(sep)[0]]: the part of [s] before the first [sep], all of [s]
    when [sep] does not occur in it. *)
Fixpoint before (sep s : string) : string :=
  if String.prefix sep s then EmptyString
  else match s with
       | EmptyString => EmptyString
       | String c s' => String c (before sep s')
       end.

(** The order of [sorted] on strings: by code point, a prefix first. *)
Definition str_le (s1 s2 : string) : Prop := String.leb s1 s2 = true.

#[global] Instance str_le_dec s1 s2 : Decision (str_le s1 s2) :=
  decide (String.leb s1 s2 = true).

(** Lines 29-35, on the names [os.listdir] returns. *)
Definition subjects (listing : list string) : list string :=
  merge_sort str_le
    (map (before "_test.csv")
       (filter (fun f => PyStr.contains "_test.csv" f = true) listing)).

(** The last component of the path of the test table in
    [MMLUDataModule.__init__], line 97. *)
Definition test_file_name (subj : string) : string := subj ++ "_test.csv".

(** The three report loops of [main], lines 70-82: the accuracy of every
    subcategory, then of every category, then of all subjects, up to the
    first exception. The finite maps do not keep the order in which the
    keys were inserted: the lines of a loop are in the order of the map. *)
Definition report_lines (d : gmap string Cors) : outcome (list (string * Q)) :=
  omap (fun kv => obind (accuracy kv.2) (fun q => Ok (kv.1, q))) (map_to_list d).

Definition report (a : Agg)
  : outcome (list (string * Q) * list (string * Q) * Q) :=
  obind (report_lines (subcat_cors a)) (fun subcat_lines =>
  obind (report_lines (cat_cors a)) (fun cat_lines =>
  obind (weighted_acc a) (fun w => Ok (subcat_lines, cat_lines, w)))).

Section Main.

Context {F : Type} `{FloatOps F}.

Variable format_example : DataFrame → nat → bool → string.
Variable gen_prompt : DataFrame → string → Z → string.
Variable tokenizer : Tokenizer.
Variable model_name : string.
Variable model : Batch → list (list (list F)).
Variable padding_side truncation_side : side.

(** [args.ntrain], [args.prompt_dir], [args.batch_size] *)
Variable ntrain : Z.
Variable prompt_dir : option string.
Variable batch_size : Z.

(** The two tables [MMLUDataModule.__init__] reads for a subject, the
    development table first. *)
Variable tables : string → DataFrame * DataFrame.

Variable subcategories : gmap string (list string).
Variable categories : gmap string (list string).

(** Lines 52-53: a new data module and its [prepare_data]. *)
Definition prepare (fuel : nat) (subject : string) : outcome DataModule :=
  let '(o, data_module) :=
    prepare_data format_example gen_prompt tokenizer subject ntrain
      (tables subject).1 (tables subject).2 prompt_dir fuel
      {| testset := []; valset := [] |} in
  obind o (fun _ => Ok data_module).

(** Lines 52-60: the counters [(cor, total)] of one subject, on the metric
    of the model. *)
Definition evaluate (fuel : nat) (subject : string) : method Metric (Z * Z) :=
  do data_module <- lift (prepare fuel subject);
  run trainer_test tokenizer model_name model padding_side truncation_side
        batch_size data_module;
  fun metric => (Ok (correct metric, total metric), metric).

(** Lines 51-68: [for subject in subjects]. *)
Fixpoint main_loop (fuel : nat) (subjs : list string) (a : Agg)
  : method Metric Agg :=
  match subjs with
  | [] => ret a
  | subject :: subjs' =>
      do x <- evaluate fuel subject;
      do a <- lift (record_subject subcategories categories subject x a);
      main_loop fuel subjs' a
  end.

(** [main] from line 29 on. *)
Definition main (fuel : nat) (listing : list string)
  : method Metric (list (string * Q) * list (string * Q) * Q) :=
  do a <- main_loop fuel (subjects listing) (init_agg subcategories categories);
  lift (report a).

(** The tables of a subject are prepared within the fuel and every batch
    of its test pass can be scored. *)
Definition subject_ok (fuel : nat) (subject : string) : bool :=
  match prepare fuel subject with
  | Ok data_module =>
      batches_ok tokenizer model_name model padding_side truncation_side
        (batch_sampler (Z.to_nat batch_size) [] (testset data_module))
  | _ => false
  end.

End Main.

(** Every key the loop of lines 51-68 can append to is in the
    accumulators. *)
Definition covers (subcategories categories : gmap string (list string))
  (a : Agg) : Prop :=
  (∀ s subcats sc, subcategories !! s = Some subcats → sc ∈ subcats →
     is_Some (subcat_cors a !! sc))
  ∧ (∀ cat, is_Some (categories !! cat) → is_Some (cat_cors a !! cat)).

(** The only exception of an outcome, if any, is [IndexError]. *)
Definition index_error_only {A} (o : outcome A) : Prop :=
  match o with
  | Ok _ => True
  | Raise e => e = IndexError
  | OutOfFuel => False
  end.

(** The metric keeps its shape through a pass: the counters are ordered,
    no more predictions are recorded than examples counted, and the
    predictions are letters. *)
Definition sound (m : Metric) : Prop :=
  (0 ≤ correct m ≤ total m)%Z
  ∧ (Z.of_nat (length (all_preds m)) ≤ total m)%Z
  ∧ Forall (fun p => p ∈ letters) (all_preds m).

(* ===================================================================== *)
(** ** What the data sets hold *)
(* ===================================================================== *)

Section Entries.

Variable format_example : DataFrame → nat → bool → string.
Variable gen_prompt : DataFrame → string → Z → string.
Variable tokenizer : Tokenizer.
Variable subject : string.
Variable ntrain : Z.
Variable dev_df test_df : DataFrame.

(** The entry of the test set for row [i], as lines 108-123 build it: the
    label of the row, and the prompt of the greatest few-shot count, from
    [ntrain] down, whose prompt is within the budget. *)
Definition test_entry (i : nat) (e : Example) : Prop :=
  ∃ row k,
    test_df !! i = Some row
    ∧ output e = gold row
    ∧ (k ≤ ntrain)%Z
    ∧ input e
      = prompt_at gen_prompt subject dev_df (format_example test_df i false) k
    ∧ over_budget tokenizer (input e) = false
    ∧ ∀ j, (k < j ≤ ntrain)%Z →
        over_budget tokenizer
          (prompt_at gen_prompt subject dev_df (format_example test_df i false) j)
        = true.

(** The entry of the validation set for row [i], as lines 127-141 build
    it. *)
Definition val_entry (i : nat) (e : Example) : Prop :=
  ∃ row,
    dev_df !! i = Some row
    ∧ e = {| input := zero_shot format_example gen_prompt subject dev_df i;
             output := gold row |}
    ∧ over_budget tokenizer (input e) = false.

End Entries.

(* ===================================================================== *)
(** ** A small running instance *)
(* ===================================================================== *)

Module Demo.

Definition nl : string := String (ascii_of_nat 10) EmptyString.

(** Modelled from the spec: [format_example] of [utils.py], which is not
    part of the sources at hand. A row is laid out as the question, one
    line per option under its letter, and the line ["Answer:"], followed
    by the gold letter when the answer is included. *)
Definition format_row (r : Row) (include_answer : bool) : string :=
  question r
  ++ String.concat ""
       (zip_with (fun l o => nl ++ l ++ ". " ++ o) letters (options r))
  ++ nl ++ "Answer:"
  ++ (if include_answer then " " ++ gold r ++ nl ++ nl else "").

Definition format_example (df : DataFrame) (i : nat) (include_answer : bool)
  : string :=
  match df !! i with
  | Some r => format_row r include_answer
  | None => ""
  end.

(** Modelled from the spec: [gen_prompt] of [utils.py], which is not part
    of the sources at hand. The prompt begins with the instruction
    sentence of the subject and holds the first [k] rows of the pool,
    each with its answer. *)
Definition gen_prompt (df : DataFrame) (subject : string) (k : Z) : string :=
  "The following are multiple choice questions (with answers) about "
  ++ subject ++ "." ++ nl ++ nl
  ++ String.concat "" (map (fun r => format_row r true) (take (Z.to_nat k) df)).

(** A tokenizer with one token per character; 0 pads. *)
Definition char_tokenizer : Tokenizer :=
  {| input_ids := fun s =>
       map (fun c => Z.of_nat (nat_of_ascii c)) (list_ascii_of_string s);
     decode := fun ids =>
       string_of_list_ascii
         (map (fun z => ascii_of_nat (Z.to_nat z))
            (filter (fun z => z ≠ 0%Z) ids));
     pad_token_id := 0 |}.

Definition short_row : Row :=
  {| question := "2 + 2 ="; options := ["3"; "4"; "5"; "6"]; gold := "B" |}.

Definition other_row : Row :=
  {| question := "3 * 3 ="; options := ["9"; "6"; "3"; "0"]; gold := "A" |}.

(** A question of 2100 characters. *)
Definition long_row : Row :=
  {| question := string_of_list_ascii (replicate 2100 "a"%char);
     options := ["w"; "x"; "y"; "z"]; gold := "D" |}.

(** A question of 600 characters. *)
Definition mid_row : Row :=
  {| question := string_of_list_ascii (replicate 600 "b"%char);
     options := ["w"; "x"; "y"; "z"]; gold := "D" |}.

Definition subject : string := "arithmetic".

Definition dev_df : DataFrame := [short_row; other_row].

(** A development table whose second question is too long on its own. *)
Definition dev_long : DataFrame := [short_row; long_row].

Definition test_df : DataFrame := [other_row; short_row; other_row].

(** A test table whose only question is too long on its own. *)
Definition test_long : DataFrame := [long_row].

(** A test table whose question is longer than 512 tokens and fits the
    budget of 2048, and the entry [prepare_data] builds for it with one
    few-shot example. *)
Definition test_mid : DataFrame := [mid_row].

Definition mid_example : Example :=
  {| input := gen_prompt dev_df subject 1 ++ format_example test_mid 0 false;
     output := "D" |}.

(** A development table whose first question has 1500 characters: with
    the question of 600 characters no few-shot example fits the budget. *)
Definition big_row : Row :=
  {| question := string_of_list_ascii (replicate 1500 "c"%char);
     options := ["w"; "x"; "y"; "z"]; gold := "C" |}.

Definition dev_big : DataFrame := [big_row; short_row].

(** [prepare_data] on these tables, two few-shot examples asked for. *)
Definition shrunk : DataModule :=
  (prepare_data format_example gen_prompt char_tokenizer subject 2 dev_big
     test_mid None 5 {| testset := []; valset := [] |}).2.

(** Exact rational arithmetic in the place of floating point: no NaN,
    and the power of two of the integer part as exponential. *)
Definition qexp (q : Q) : Q := Qpower 2 (Qfloor q).

#[global] Instance QFloat : FloatOps Q :=
  {| fzero := 0%Q;
     fexp := qexp;
     fadd := Qplus;
     fdiv := Qdiv;
     fleb := Qle_bool;
     fisnan := fun _ => false;
     fleb_refl := fun x _ => proj2 (Qle_bool_iff x x) (Qle_refl x);
     fleb_trans := fun x y z Hxy Hyz =>
       proj2 (Qle_bool_iff x z)
         (Qle_trans x y z (proj1 (Qle_bool_iff x y) Hxy)
            (proj1 (Qle_bool_iff y z) Hyz));
     fleb_total := fun x y _ _ =>
       match Qlt_le_dec x y with
       | left Hlt => or_introl (proj2 (Qle_bool_iff x y) (Qlt_le_weak x y Hlt))
       | right Hle => or_intror (proj2 (Qle_bool_iff y x) Hle)
       end |}.

(** A network over a vocabulary of 128 tokens that returns two
    positions per input row, computed from the ids of the row. *)
Definition logit_vector (row : list Z) (seed : Z) : list Q :=
  map (fun j => inject_Z ((foldr Z.add seed row * (Z.of_nat j + seed)) mod 7))
    (seq 0 128).

Definition model (batch : Batch) : list (list (list Q)) :=
  match batch !! "input_ids" with
  | Some rows => map (fun row => [logit_vector row 1; logit_vector row 2]) rows
  | None => []
  end.

(** A vector with the same logit for every token. *)
Definition flat_logit : list Q := replicate 128 (3 # 2)%Q.

(** A tokenizer that puts a begin-of-sequence token, 1, before the tokens
    of the characters, as the tokenizer of a LLaMA model does. *)
Definition bos_tokenizer : Tokenizer :=
  {| input_ids := fun s => (1 :: input_ids char_tokenizer s)%Z;
     decode := decode char_tokenizer;
     pad_token_id := 0 |}.

(** The flat vector with a peak at the token of "C", 67, and a lower one
    at the begin-of-sequence token. *)
Definition peaked_logit : list Q :=
  <[67%nat := (5 # 1)%Q]> (<[1%nat := (4 # 1)%Q]> flat_logit).

Definition standard_name : string := "google/flan-t5-small".
Definition alpaca_name : string := "chavinlo/alpaca-native".

Definition examples : list Example :=
  [ {| input := "2 + 2 ="; output := "A" |};
    {| input := "3 * 3 ="; output := " D " |};
    {| input := "1 - 1 ="; output := "B" |} ].

Definition batch : Batch :=
  tokenizer_call char_tokenizer Right Right
    (map input examples) (map output examples) 512.

Definition labels : list (list Z) := default [] (batch !! "labels").

Definition logits : list (list (list Q)) := model batch.

(** The first position of every example, and the predictions on it. *)
Definition rows : list (list Q) :=
  match select_position standard_name logits with
  | Ok rows => rows
  | _ => []
  end.

Definition preds : list string :=
  match omap (predict char_tokenizer standard_name) rows with
  | Ok preds => preds
  | _ => []
  end.

Definition new_metric : Metric :=
  {| total := 0; correct := 0; all_preds := []; all_golds := [] |}.

(** The logits of the batch with the label row of the last example
    missing. *)
Definition short_labels : list (list Z) := take 2 labels.

(** The flat vector with other values away from the ids of the letters. *)
Definition flat_but_elsewhere : list Q :=
  <[3%nat := (7 # 1)%Q]> (<[100%nat := (-2 # 1)%Q]> flat_logit).

(** The names in a directory of test tables. *)
Definition listing : list string :=
  ["geometry_test.csv"; "notes.txt"; "algebra_test.csv.bak"; "anatomy_test.csv"].

(** Three subjects in two subcategories and two categories, and the
    counters they ended with. *)
Definition subcategories : gmap string (list string) :=
  <["algebra" := ["math"]]>
    (<["geometry" := ["math"]]> (<["anatomy" := ["health"]]> ∅)).

Definition categories : gmap string (list string) :=
  <["STEM" := ["physics"; "math"]]> (<["other" := ["health"]]> ∅).

Definition results : list (string * (Z * Z)) :=
  [("algebra", (1, 1)); ("anatomy", (2, 4)); ("geometry", (0, 3))]%Z.

(** The data module after [prepare_data] on the running tables, with one
    few-shot example. *)
Definition prepared : DataModule :=
  (prepare_data format_example gen_prompt char_tokenizer subject 1 dev_df
     test_df None 0 {| testset := []; valset := [] |}).2.

(** Every subject of the running listing comes with the running tables. *)
Definition tables (subject : string) : DataFrame * DataFrame :=
  (dev_df, test_df).

End Demo.

(* ===================================================================== *)
(** * Properties of the prompt builder *)
(* ===================================================================== *)

Ltac unfold_method :=
  unfold bind, lift, modify, ret, raise in *; simpl in *.

Section PromptBuilderFacts.

Variable format_example : DataFrame → nat → bool → string.
Variable gen_prompt : DataFrame → string → Z → string.
Variable tokenizer : Tokenizer.
Variable subject : string.
Variable ntrain : Z.
Variable dev_df test_df : DataFrame.

Local Abbreviation over := (over_budget tokenizer).
Local Abbreviation prompt_at' := (prompt_at gen_prompt subject dev_df).
Local Abbreviation zero_shot' := (zero_shot format_example gen_prompt subject dev_df).
Local Abbreviation shrink' := (shrink gen_prompt tokenizer subject dev_df).
Local Abbreviation shrink_val' := (shrink_val gen_prompt tokenizer subject dev_df).
Local Abbreviation test_body' :=
  (test_body format_example gen_prompt tokenizer subject ntrain dev_df test_df).
Local Abbreviation val_body' :=
  (val_body format_example gen_prompt tokenizer subject dev_df).
Local Abbreviation for_test' :=
  (for_test format_example gen_prompt tokenizer subject ntrain dev_df test_df).
Local Abbreviation for_val' :=
  (for_val format_example gen_prompt tokenizer subject dev_df).

Lemma shrink_step fuel prompt_end k prompt :
  over prompt = true →
  shrink' (S fuel) prompt_end k prompt
  = shrink' fuel prompt_end (k - 1) (prompt_at' prompt_end (k - 1)).
Proof. intros Hover. simpl. by rewrite Hover. Qed.

(** What the loop returns fits the budget, and it is the prompt of the
    counter it returns unless no iteration ran. *)
Lemma shrink_ok fuel prompt_end k prompt k' prompt' :
  shrink' fuel prompt_end k prompt = Ok (k', prompt') →
  over prompt' = false
  ∧ (k' ≤ k)%Z
  ∧ (k' = k ∧ prompt' = prompt
     ∨ (k' < k)%Z ∧ prompt' = prompt_at' prompt_end k').
Proof.
  revert k prompt. induction fuel as [|fuel IH]; intros k prompt; simpl.
  - destruct (over_budget tokenizer prompt) eqn:E; [done|].
    intros [= <- <-]. split; [done|]. split; [lia|]. by left.
  - destruct (over_budget tokenizer prompt) eqn:E.
    + intros Hrun. apply IH in Hrun as (Hfit & Hle & Hcase).
      split; [done|]. split; [lia|]. right.
      destruct Hcase as [[-> ->]|[Hlt ->]]; split; (lia || done).
    + intros [= <- <-]. split; [done|]. split; [lia|]. by left.
Qed.

(** While every prompt from [k] down to [k - n] is over the budget, the
    loop runs on: with [n] units of fuel left it is at [k - n]. *)
Lemma shrink_run n fuel prompt_end k :
  (∀ j : Z, (k - Z.of_nat n < j ≤ k)%Z →
     over (prompt_at' prompt_end j) = true) →
  shrink' (n + fuel) prompt_end k (prompt_at' prompt_end k)
  = shrink' fuel prompt_end (k - Z.of_nat n)
      (prompt_at' prompt_end (k - Z.of_nat n)).
Proof.
  revert k. induction n as [|n IH]; intros k Hover.
  - replace (k - Z.of_nat 0)%Z with k by lia. done.
  - replace (S n + fuel)%nat with (S (n + fuel)) by lia.
    rewrite shrink_step by (apply Hover; lia).
    rewrite IH by (intros j Hj; apply Hover; lia).
    by replace (k - 1 - Z.of_nat n)%Z with (k - Z.of_nat (S n))%Z by lia.
Qed.

(** The validation loop rebuilds the prompt it already has. *)
Lemma shrink_val_diverges fuel prompt_end k :
  over (gen_prompt dev_df subject 0 ++ prompt_end) = true →
  shrink_val' fuel prompt_end (Some k) (gen_prompt dev_df subject 0 ++ prompt_end)
  = OutOfFuel.
Proof.
  intros Hover. revert k.
  induction fuel as [|fuel IH]; intros k; simpl; rewrite Hover; [done|].
  apply IH.
Qed.

Lemma shrink_val_fits fuel prompt_end k prompt :
  over prompt = false → shrink_val' fuel prompt_end k prompt = Ok (k, prompt).
Proof.
  intros Hfit. destruct fuel; simpl; by rewrite Hfit.
Qed.

Lemma iloc_last_ok (df : DataFrame) i :
  (i < length df)%nat → ∃ label, iloc_last df i = Ok label.
Proof.
  intros Hi. unfold iloc_last.
  destruct (lookup_lt_is_Some_2 df i Hi) as [r ->]. by eexists.
Qed.

Lemma shrink_no_raise fuel prompt_end k prompt e :
  shrink' fuel prompt_end k prompt ≠ Raise e.
Proof.
  revert k prompt. induction fuel as [|fuel IH]; intros k prompt; simpl;
    destruct (over_budget tokenizer prompt); try done.
Qed.

Lemma test_body_cases fuel i self :
  (i < length test_df)%nat →
  test_body' fuel i self = (OutOfFuel, self)
  ∨ ∃ k prompt label,
      test_body' fuel i self
      = (Ok (Some k),
         set_testset (testset self ++ [{| input := prompt; output := label |}]) self)
      ∧ over prompt = false.
Proof.
  intros Hi. unfold test_body. unfold_method.
  destruct (shrink _ _ _ _ _ _ _ _) as [[k prompt]| |] eqn:E.
  - right. apply shrink_ok in E as (Hfit & _).
    destruct (iloc_last_ok test_df i Hi) as [label ->]. by exists k, prompt, label.
  - by apply shrink_no_raise in E.
  - by left.
Qed.

Lemma for_test_cons fuel i idx k self :
  for_test' fuel (i :: idx) k self
  = match test_body' fuel i self with
    | (Ok k1, self1) => for_test' fuel idx k1 self1
    | (Raise e, self1) => (Raise e, self1)
    | (OutOfFuel, self1) => (OutOfFuel, self1)
    end.
Proof. reflexivity. Qed.

Lemma for_val_cons fuel i idx k self :
  for_val' fuel (i :: idx) k self
  = match val_body' fuel k i self with
    | (Ok k1, self1) => for_val' fuel idx k1 self1
    | (Raise e, self1) => (Raise e, self1)
    | (OutOfFuel, self1) => (OutOfFuel, self1)
    end.
Proof. reflexivity. Qed.

Lemma for_test_cases fuel idx k self :
  Forall (fun i => (i < length test_df)%nat) idx →
  (∃ self', for_test' fuel idx k self = (OutOfFuel, self'))
  ∨ ∃ k' self',
      for_test' fuel idx k self = (Ok k', self')
      ∧ length (testset self') = (length (testset self) + length idx)%nat
      ∧ valset self' = valset self
      ∧ (idx ≠ [] → is_Some k').
Proof.
  intros Hidx. revert k self.
  induction Hidx as [|i idx Hi _ IH]; intros k self.
  - right. exists k, self. simpl. unfold ret. repeat split; [lia|done].
  - rewrite for_test_cons.
    destruct (test_body_cases fuel i self Hi) as [E|(k1 & prompt & label & E & _)];
      rewrite E.
    + left. by eexists.
    + destruct (IH (Some k1)
                  (set_testset
                     (testset self ++ [{| input := prompt; output := label |}])
                     self))
        as [[self' E']|(k' & self' & E' & Hlen & Hval & Hk)].
      * left. exists self'. exact E'.
      * right. exists k', self'. split; [exact E'|].
        rewrite Hlen. simpl. rewrite length_app. simpl.
        split; [lia|]. split; [done|]. intros _.
        destruct idx; [|by apply Hk].
        simpl in E'. unfold ret in E'. injection E' as <- _. by eexists.
Qed.

Lemma val_body_fits fuel k i self :
  (i < length dev_df)%nat → over (zero_shot' i) = false →
  ∃ label,
    val_body' fuel k i self
    = (Ok k,
       set_valset
         (valset self ++ [{| input := zero_shot' i; output := label |}]) self).
Proof.
  intros Hi Hfit. unfold val_body. unfold_method.
  fold (zero_shot' i). rewrite (shrink_val_fits fuel _ k _ Hfit).
  destruct (iloc_last_ok dev_df i Hi) as [label ->]. by exists label.
Qed.

Lemma val_body_diverges fuel k i self :
  over (zero_shot' i) = true →
  val_body' fuel (Some k) i self = (OutOfFuel, self).
Proof.
  intros Hover. unfold val_body. unfold_method.
  by rewrite (shrink_val_diverges fuel _ k Hover).
Qed.

Lemma for_val_diverges fuel idx k i self :
  Forall (fun j => (j < length dev_df)%nat) idx →
  i ∈ idx → over (zero_shot' i) = true →
  ∃ self', for_val' fuel idx (Some k) self = (OutOfFuel, self').
Proof.
  intros Hidx Hin Hover. revert self.
  induction Hidx as [|j idx Hj _ IH]; intros self; [by apply elem_of_nil in Hin|].
  rewrite for_val_cons.
  destruct (over (zero_shot' j)) eqn:Ej.
  - rewrite (val_body_diverges fuel k j self Ej). by eexists.
  - destruct (val_body_fits fuel (Some k) j self Hj Ej) as [label ->].
    apply elem_of_cons in Hin as [->|Hin]; [congruence|].
    by apply IH.
Qed.

Lemma for_val_fits fuel idx k self :
  Forall (fun j => (j < length dev_df)%nat ∧ over (zero_shot' j) = false) idx →
  ∃ self',
    for_val' fuel idx k self = (Ok k, self')
    ∧ length (valset self') = (length (valset self) + length idx)%nat
    ∧ testset self' = testset self.
Proof.
  intros Hidx. revert self.
  induction Hidx as [|j idx [Hj Efit] _ IH]; intros self.
  - exists self. simpl. unfold ret. repeat split; lia.
  - rewrite for_val_cons.
    destruct (val_body_fits fuel k j self Hj Efit) as [label ->].
    destruct (IH (set_valset
                    (valset self ++ [{| input := zero_shot' j; output := label |}])
                    self))
      as (self' & E & Hlen & Hts).
    exists self'. split; [exact E|]. rewrite Hlen. simpl. rewrite length_app.
    simpl. split; [lia|done].
Qed.

Lemma shrink_fits fuel prompt_end k prompt :
  over prompt = false → shrink' fuel prompt_end k prompt = Ok (k, prompt).
Proof. intros Hfit. destruct fuel; simpl; by rewrite Hfit. Qed.

Lemma for_test_fits fuel idx k self :
  Forall (fun i => (i < length test_df)%nat
                   ∧ over (prompt_at' (format_example test_df i false) ntrain)
                     = false) idx →
  ∃ k' self',
    for_test' fuel idx k self = (Ok k', self')
    ∧ length (testset self') = (length (testset self) + length idx)%nat
    ∧ valset self' = valset self.
Proof.
  intros Hidx. revert k self.
  induction Hidx as [|i idx [Hi Hfit] _ IH]; intros k self.
  - exists k, self. simpl. unfold ret. repeat split; lia.
  - rewrite for_test_cons. unfold test_body. unfold_method.
    fold (prompt_at' (format_example test_df i false) ntrain).
    rewrite (shrink_fits fuel _ ntrain _ Hfit).
    destruct (iloc_last_ok test_df i Hi) as [label ->].
    match goal with |- context [for_test' fuel idx ?k1 ?s1] =>
      destruct (IH k1 s1) as (k' & self' & -> & Hlen & Hvs) end.
    exists k', self'. split; [done|]. rewrite Hlen, Hvs. simpl.
    rewrite length_app. simpl. split; [lia|done].
Qed.

Lemma index_bound (df : DataFrame) :
  Forall (fun i => (i < length df)%nat) (index df).
Proof.
  apply Forall_forall. intros i Hi. unfold index in Hi.
  apply elem_of_seq in Hi. lia.
Qed.

Local Abbreviation prepare_data' :=
  (prepare_data format_example gen_prompt tokenizer subject ntrain dev_df test_df).

Lemma prepare_data_none fuel self :
  prepare_data' None fuel self
  = match for_test' fuel (index test_df) None {| testset := []; valset := [] |} with
    | (Ok k, self1) =>
        match for_val' fuel (index dev_df) k self1 with
        | (Ok _, self2) => (Ok tt, self2)
        | (Raise e, self2) => (Raise e, self2)
        | (OutOfFuel, self2) => (OutOfFuel, self2)
        end
    | (Raise e, self1) => (Raise e, self1)
    | (OutOfFuel, self1) => (OutOfFuel, self1)
    end.
Proof.
  unfold prepare_data. unfold_method.
  by destruct (for_test _ _ _ _ _ _ _ _ _ _ _) as [[k| |] self1].
Qed.

(** C1 (the floor at zero is missing). When every prompt from the
    requested few-shot count down to the zero-shot form is over the
    2048-token budget, the search of lines 113-116 does not stop at 0:
    after [ntrain + 1] iterations it holds the counter -1 and the prompt
    built by [gen_prompt(dev_df, subject, -1)], and whatever fuel it is
    given it never returns the zero-shot prompt; it either runs on or
    returns a prompt built for a negative count. *)
Theorem shrink_passes_zero (prompt_end : string) :
  (0 ≤ ntrain)%Z →
  (∀ j : Z, (0 ≤ j ≤ ntrain)%Z →
     over_budget tokenizer (prompt_at gen_prompt subject dev_df prompt_end j)
     = true) →
  (∀ fuel,
     shrink gen_prompt tokenizer subject dev_df (S (Z.to_nat ntrain) + fuel)
       prompt_end ntrain (prompt_at gen_prompt subject dev_df prompt_end ntrain)
     = shrink gen_prompt tokenizer subject dev_df fuel prompt_end (-1)
         (prompt_at gen_prompt subject dev_df prompt_end (-1)))
  ∧ (∀ fuel,
       shrink gen_prompt tokenizer subject dev_df fuel prompt_end ntrain
         (prompt_at gen_prompt subject dev_df prompt_end ntrain)
       = OutOfFuel
       ∨ ∃ k, (k < 0)%Z
              ∧ shrink gen_prompt tokenizer subject dev_df fuel prompt_end ntrain
                  (prompt_at gen_prompt subject dev_df prompt_end ntrain)
                = Ok (k, prompt_at gen_prompt subject dev_df prompt_end k)).
Proof.
  intros Hk Hover.
  assert (Hrun : ∀ fuel,
    shrink' (S (Z.to_nat ntrain) + fuel) prompt_end ntrain
      (prompt_at' prompt_end ntrain)
    = shrink' fuel prompt_end (-1) (prompt_at' prompt_end (-1))).
  { intros fuel. rewrite shrink_run by (intros j Hj; apply Hover; lia).
    by replace (ntrain - Z.of_nat (S (Z.to_nat ntrain)))%Z with (-1)%Z by lia. }
  split; [exact Hrun|]. intros fuel.
  destruct (shrink' fuel prompt_end ntrain (prompt_at' prompt_end ntrain))
    as [[k p]| |] eqn:E; [|by apply shrink_no_raise in E|by left].
  right. apply shrink_ok in E as (Hfit & Hle & Hcase).
  assert (k < 0)%Z as Hneg.
  { destruct (Z.ltb_spec k 0) as [|Hge]; [done|]. exfalso.
    destruct Hcase as [[-> ->]|[_ ->]]; rewrite Hover in Hfit by lia; done. }
  exists k. split; [done|].
  destruct Hcase as [[-> ->]|[_ ->]]; done.
Qed.

Lemma for_val_outcome fuel idx k self o self' :
  for_val' fuel idx k self = (o, self') →
  Forall (fun j => (j < length dev_df)%nat) idx →
  o ≠ Raise NotImplementedError
  ∧ (is_ok o = true →
     length (valset self') = (length (valset self) + length idx)%nat
     ∧ testset self' = testset self).
Proof.
  intros E Hidx. revert k self E.
  induction Hidx as [|j idx Hj _ IH]; intros k self.
  - simpl. unfold ret. intros [= <- <-]. split; [done|]. intros _. split; [lia|done].
  - rewrite for_val_cons. unfold val_body. unfold_method.
    destruct (shrink_val _ _ _ _ _ _ _ _) as [[k1 p]| |] eqn:Es.
    + destruct (iloc_last_ok dev_df j Hj) as [label ->].
      intros E. apply IH in E as [Hne Hlen]. split; [done|].
      intros Hok. destruct (Hlen Hok) as [-> ->]. simpl. rewrite length_app.
      simpl. split; [lia|done].
    + intros [= <- <-]. split; [|done].
      intros [= ->]. revert Es. clear.
      generalize (gen_prompt dev_df subject 0 ++ format_example dev_df j false).
      revert k. induction fuel as [|fuel IH]; intros k p; simpl;
        destruct (over_budget tokenizer p); destruct k; try done. apply IH.
    + intros [= <- <-]. done.
Qed.

Lemma prepare_data_lengths fuel self self' :
  prepare_data' None fuel self = (Ok tt, self') →
  length (testset self') = length test_df
  ∧ length (valset self') = length dev_df.
Proof.
  rewrite prepare_data_none.
  destruct (for_test_cases fuel (index test_df) None
              {| testset := []; valset := [] |} (index_bound test_df))
    as [[self1 ->]|(k & self1 & -> & Hlen & Hvs & _)]; [done|].
  destruct (for_val' fuel (index dev_df) k self1) as [o self2] eqn:E.
  apply for_val_outcome in E as [_ Hl]; [|apply index_bound].
  destruct o; try done. intros [= <-].
  destruct (Hl eq_refl) as [Hl1 Hl2].
  rewrite Hl2, Hl1, Hlen, Hvs. unfold index. rewrite !length_seq.
  simpl. lia.
Qed.

Lemma forallb_index (df : DataFrame) (f : nat → bool) (P : nat → Prop) :
  forallb f (index df) = true →
  (∀ i, f i = true → P i) →
  Forall (fun i => (i < length df)%nat ∧ P i) (index df).
Proof.
  intros Hall Himp. apply Forall_forall. intros i Hi. split.
  - unfold index in Hi. apply elem_of_seq in Hi. lia.
  - apply Himp. rewrite forallb_forall in Hall. apply Hall.
    by apply list_elem_of_In.
Qed.

Lemma prepare_data_fits fuel self :
  prompts_fit format_example gen_prompt tokenizer subject ntrain dev_df test_df
  = true →
  ∃ self',
    prepare_data' None fuel self = (Ok tt, self')
    ∧ length (testset self') = length test_df
    ∧ length (valset self') = length dev_df.
Proof.
  intros [Htest Hval]%andb_true_iff. rewrite prepare_data_none.
  destruct (for_test_fits fuel (index test_df) None
              {| testset := []; valset := [] |})
    as (k & self1 & -> & Hlen1 & Hvs1).
  { apply (forallb_index test_df _ _ Htest). intros i Hi.
    by apply negb_true_iff in Hi. }
  destruct (for_val_fits fuel (index dev_df) k self1)
    as (self2 & -> & Hlen2 & Hts2).
  { apply (forallb_index dev_df _ _ Hval). intros i Hi.
    by apply negb_true_iff in Hi. }
  exists self2. split; [done|].
  rewrite Hts2, Hlen2, Hlen1, Hvs1. unfold index. rewrite !length_seq.
  simpl. split; lia.
Qed.

(** C8. With a prompt directory [prepare_data] raises
    [NotImplementedError] with both sets still empty, whatever the fuel,
    the tables and the tokenizer are: no prompt has been built and no
    loop entered. Without one the outcome is never that exception, and
    the preparation goes on: when the prompts fit the budget it returns
    with one entry per test row and one per development row. *)
Theorem prepare_data_prompt_dir :
  (∀ dir fuel self,
     prepare_data format_example gen_prompt tokenizer subject ntrain dev_df
       test_df (Some dir) fuel self
     = (Raise NotImplementedError, {| testset := []; valset := [] |}))
  ∧ (∀ fuel self,
       (prepare_data format_example gen_prompt tokenizer subject ntrain dev_df
          test_df None fuel self).1
       ≠ Raise NotImplementedError)
  ∧ (∀ fuel self,
       prompts_fit format_example gen_prompt tokenizer subject ntrain dev_df
         test_df = true →
       ∃ self',
         prepare_data format_example gen_prompt tokenizer subject ntrain dev_df
           test_df None fuel self = (Ok tt, self')
         ∧ length (testset self') = length test_df
         ∧ length (valset self') = length dev_df).
Proof.
  split; [done|]. split.
  - intros fuel self. rewrite prepare_data_none.
    destruct (for_test_cases fuel (index test_df) None
                {| testset := []; valset := [] |} (index_bound test_df))
      as [[self1 ->]|(k & self1 & -> & _)]; [done|].
    destruct (for_val' fuel (index dev_df) k self1) as [o self2] eqn:E.
    apply for_val_outcome in E as [Hne _]; [|apply index_bound].
    destruct o; simpl; [done| |done]. intros [= ->]. by apply Hne.
  - apply prepare_data_fits.
Qed.

(** C10. If the zero-shot prompt of some development row is over the
    2048-token budget, the [while] loop of lines 131-134 does not
    terminate on it: whatever the stale counter [k] holds, every amount
    of fuel is used up, because each iteration rebuilds the same
    zero-shot prompt. So [prepare_data], on a test table with at least
    one row (which binds [k]), never returns. *)
Theorem val_loop_never_terminates (i : nat) :
  test_df ≠ [] →
  (i < length dev_df)%nat →
  over_budget tokenizer (zero_shot format_example gen_prompt subject dev_df i)
  = true →
  ∀ fuel,
    (∀ k, shrink_val gen_prompt tokenizer subject dev_df fuel
            (format_example dev_df i false) (Some k)
            (zero_shot format_example gen_prompt subject dev_df i)
          = OutOfFuel)
    ∧ (∀ self,
         (prepare_data format_example gen_prompt tokenizer subject ntrain
            dev_df test_df None fuel self).1
         = OutOfFuel).
Proof.
  intros Hne Hi Hover fuel. split.
  - intros k. by apply shrink_val_diverges.
  - intros self. rewrite prepare_data_none.
    destruct (for_test_cases fuel (index test_df) None
                {| testset := []; valset := [] |} (index_bound test_df))
      as [[self1 ->]|(k & self1 & -> & _ & _ & Hk)]; [done|].
    destruct Hk as [kv ->].
    { unfold index. destruct test_df; [done|]. simpl. done. }
    destruct (for_val_diverges fuel (index dev_df) kv i self1) as [self2 ->];
      try done.
    + apply index_bound.
    + unfold index. apply elem_of_seq. lia.
Qed.

End PromptBuilderFacts.

(** The search on a test question of 2100 characters, one token per
    character, with no few-shot example requested. *)
Lemma shrink_passes_zero_witness :
  (∀ fuel,
     shrink Demo.gen_prompt Demo.char_tokenizer Demo.subject Demo.dev_df
       (S (Z.to_nat 0) + fuel) (Demo.format_example Demo.test_long 0 false) 0
       (prompt_at Demo.gen_prompt Demo.subject Demo.dev_df
          (Demo.format_example Demo.test_long 0 false) 0)
     = shrink Demo.gen_prompt Demo.char_tokenizer Demo.subject Demo.dev_df
         fuel (Demo.format_example Demo.test_long 0 false) (-1)
         (prompt_at Demo.gen_prompt Demo.subject Demo.dev_df
            (Demo.format_example Demo.test_long 0 false) (-1)))
  ∧ (∀ fuel,
       shrink Demo.gen_prompt Demo.char_tokenizer Demo.subject Demo.dev_df
         fuel (Demo.format_example Demo.test_long 0 false) 0
         (prompt_at Demo.gen_prompt Demo.subject Demo.dev_df
            (Demo.format_example Demo.test_long 0 false) 0)
       = OutOfFuel
       ∨ ∃ k, (k < 0)%Z
              ∧ shrink Demo.gen_prompt Demo.char_tokenizer Demo.subject
                  Demo.dev_df fuel (Demo.format_example Demo.test_long 0 false) 0
                  (prompt_at Demo.gen_prompt Demo.subject Demo.dev_df
                     (Demo.format_example Demo.test_long 0 false) 0)
                = Ok (k, prompt_at Demo.gen_prompt Demo.subject Demo.dev_df
                           (Demo.format_example Demo.test_long 0 false) k)).
Proof.
  apply (shrink_passes_zero Demo.gen_prompt Demo.char_tokenizer Demo.subject 0
           Demo.dev_df (Demo.format_example Demo.test_long 0 false)).
  - lia.
  - intros j Hj. assert (j = 0%Z) as -> by lia. vm_compute. reflexivity.
Defined.

(** With a prompt directory nothing is built; without one the three test
    rows and two development rows of the running instance each give an
    entry. *)
Lemma prepare_data_prompt_dir_witness :
  prepare_data Demo.format_example Demo.gen_prompt Demo.char_tokenizer
    Demo.subject 1 Demo.dev_df Demo.test_df (Some "prompts") 0
    {| testset := []; valset := [] |}
  = (Raise NotImplementedError, {| testset := []; valset := [] |})
  ∧ ∃ self',
      prepare_data Demo.format_example Demo.gen_prompt Demo.char_tokenizer
        Demo.subject 1 Demo.dev_df Demo.test_df None 0
        {| testset := []; valset := [] |} = (Ok tt, self')
      ∧ length (testset self') = 3%nat
      ∧ length (valset self') = 2%nat.
Proof.
  destruct (prepare_data_prompt_dir Demo.format_example Demo.gen_prompt
              Demo.char_tokenizer Demo.subject 1 Demo.dev_df Demo.test_df)
    as (Hdir & _ & Hfit).
  split; [apply Hdir|].
  apply (Hfit 0%nat {| testset := []; valset := [] |}).
  vm_compute. reflexivity.
Defined.

(** The second development question has 2100 characters. *)
Lemma val_loop_never_terminates_witness :
  (∀ k, shrink_val Demo.gen_prompt Demo.char_tokenizer Demo.subject
          Demo.dev_long 1000 (Demo.format_example Demo.dev_long 1 false)
          (Some k)
          (zero_shot Demo.format_example Demo.gen_prompt Demo.subject
             Demo.dev_long 1)
        = OutOfFuel)
  ∧ (∀ self,
       (prepare_data Demo.format_example Demo.gen_prompt Demo.char_tokenizer
          Demo.subject 1 Demo.dev_long Demo.test_df None 1000 self).1
       = OutOfFuel).
Proof.
  apply (val_loop_never_terminates Demo.format_example Demo.gen_prompt
           Demo.char_tokenizer Demo.subject 1 Demo.dev_long Demo.test_df 1).
  - discriminate.
  - simpl. lia.
  - vm_compute. reflexivity.
Defined.

(* ===================================================================== *)
(** * Properties of the scorer *)
(* ===================================================================== *)

Lemma omap_length {A B} (f : A → outcome B) l ys :
  omap f l = Ok ys → length ys = length l.
Proof.
  revert ys. induction l as [|x l IH]; intros ys; simpl.
  - by intros [= <-].
  - destruct (f x) as [y| |]; simpl; try done.
    destruct (omap f l) as [ys'| |]; simpl; try done.
    intros [= <-]. simpl. f_equal. by apply IH.
Qed.

Lemma omap_lookup {A B} (f : A → outcome B) l ys i x :
  omap f l = Ok ys → l !! i = Some x → ∃ y, ys !! i = Some y ∧ f x = Ok y.
Proof.
  revert ys i. induction l as [|x' l IH]; intros ys i; simpl; [done|].
  destruct (f x') as [y| |] eqn:Ef; simpl; try done.
  destruct (omap f l) as [ys'| |]; simpl; try done.
  intros [= <-]. destruct i as [|i]; simpl.
  - intros [= <-]. by exists y.
  - by apply IH.
Qed.

Section TensorFacts.

Context {F : Type} `{FloatOps F}.

(** Softmax gives equal values to equal inputs. *)
Lemma softmax_replicate n (x : F) :
  ∃ p, softmax (replicate n x) = replicate n p.
Proof.
  unfold softmax. exists (fdiv (fexp x) (foldl fadd fzero (map fexp (replicate n x)))).
  generalize (foldl fadd fzero (map fexp (replicate n x))). intros s.
  induction n as [|n IH]; simpl; [done|]. by rewrite IH.
Qed.

(** A scan over values that do not exceed the running maximum keeps its
    position. *)
Lemma argmax_scan_keep (mp : F) max_ind i v :
  Forall (fun x => fleb x mp = true) v → argmax_scan mp max_ind i v = max_ind.
Proof.
  intros Hv. revert i. induction Hv as [|x v Hx _ IH]; intros i; simpl; [done|].
  by rewrite Hx.
Qed.

(** Ties go to the first position. *)
Lemma argmax_replicate n (p : F) : argmax (replicate (S n) p) = Ok 0%nat.
Proof.
  simpl. destruct (fisnan p) eqn:Enan; [done|].
  rewrite argmax_scan_keep; [done|].
  apply Forall_replicate. by apply fleb_refl.
Qed.

(** Without NaN the scan ends on the first position of the greatest
    value seen. *)
Lemma argmax_scan_max (mp : F) max_ind i v :
  Forall (fun x => fisnan x = false) v → fisnan mp = false →
  let r := argmax_scan mp max_ind i v in
  (r = max_ind
   ∧ Forall (fun x => fleb x mp = true) v)
  ∨ (∃ j m, r = (i + j)%nat ∧ v !! j = Some m
            ∧ fleb m mp = false
            ∧ Forall (fun x => fleb x m = true) v
            ∧ (∀ j' x, (j' < j)%nat → v !! j' = Some x → fleb m x = false)).
Proof.
  intros Hnan. revert mp max_ind i.
  induction Hnan as [|x v Hx Hnan IH]; intros mp max_ind i Hmp; simpl.
  - left. by split.
  - destruct (fleb x mp) eqn:Exmp.
    + destruct (IH mp max_ind (S i) Hmp)
        as [[-> Hall]|(j & m & -> & Hj & Hm & Hall & Hfirst)].
      * left. split; [done|]. by constructor.
      * right. exists (S j), m. split; [lia|]. split; [done|]. split; [done|].
        split.
        { constructor; [|done].
          destruct (fleb_total x m Hx) as [Hle|Hle]; [|done|].
          - by eapply (Forall_lookup_1 _ _ _ _ Hnan Hj).
          - by rewrite (fleb_trans m x mp Hle Exmp) in Hm. }
        intros j' y Hj' Hy. destruct j' as [|j']; simpl in Hy.
        { injection Hy as <-. destruct (fleb m x) eqn:Emx; [|done].
          by rewrite (fleb_trans m x mp Emx Exmp) in Hm. }
        apply (Hfirst j' y); [lia|done].
    + rewrite Hx.
      assert (Hmpx : fleb mp x = true).
      { destruct (fleb_total x mp Hx Hmp) as [Hle|Hle]; [congruence|done]. }
      destruct (IH x i (S i) Hx) as [[-> Hall]|(j & m & -> & Hj & Hm & Hall & Hfirst)].
      * right. exists 0%nat, x. split; [lia|]. split; [done|]. split; [done|].
        split; [constructor; [by apply fleb_refl|done]|]. intros j' y Hj'. lia.
      * right. exists (S j), m. split; [lia|]. split; [done|].
        split.
        { destruct (fleb m mp) eqn:Emmp; [|done].
          by rewrite (fleb_trans m mp x Emmp Hmpx) in Hm. }
        split.
        { constructor; [|done].
          destruct (fleb_total x m Hx) as [Hle|Hle]; [|done|congruence].
          by eapply (Forall_lookup_1 _ _ _ _ Hnan Hj). }
        intros j' y Hj' Hy. destruct j' as [|j']; simpl in Hy.
        { by injection Hy as <-. }
        apply (Hfirst j' y); [lia|done].
Qed.

(** [argmax] is the first position of a greatest value. *)
Lemma argmax_max (v : list F) n :
  Forall (fun x => fisnan x = false) v → argmax v = Ok n →
  ∃ m, v !! n = Some m
       ∧ Forall (fun x => fleb x m = true) v
       ∧ (∀ j x, (j < n)%nat → v !! j = Some x → fleb m x = false).
Proof.
  destruct v as [|x v]; simpl; [done|].
  intros Hnan [= <-]. apply Forall_cons in Hnan as [Hx Hnan]. rewrite Hx.
  destruct (argmax_scan_max x 0 1 v Hnan Hx)
    as [[-> Hall]|(j & m & -> & Hj & Hm & Hall & Hfirst)].
  - exists x. split; [done|]. split; [constructor; [by apply fleb_refl|done]|].
    intros j y Hj. lia.
  - exists m. split; [done|].
    assert (Hxm : fleb x m = true).
    { destruct (fleb_total x m Hx) as [Hle|Hle]; [|done|congruence].
      by eapply (Forall_lookup_1 _ _ _ _ Hnan Hj). }
    split; [by constructor|].
    intros j' y Hj' Hy. destruct j' as [|j']; simpl in Hy.
    { by injection Hy as <-. }
    apply (Hfirst j' y); [lia|done].
Qed.

End TensorFacts.

Section ScorerFacts.

Context {F : Type} `{FloatOps F}.

Variable tokenizer : Tokenizer.
Variable model_name : string.

Local Abbreviation alpaca' := (alpaca model_name).
Local Abbreviation gather' := (gather tokenizer).
Local Abbreviation predict' := (predict tokenizer model_name).
Local Abbreviation spec_predict' := (spec_predict tokenizer model_name).

(** The four subscripted lookups of lines 44-47 and 61-64, as one pass
    over the letters. *)
Lemma gather_letters (pick : list Z → outcome Z) (logit : list F) :
  gather' pick logit
  = omap (fun s => obind (pick (input_ids tokenizer s)) (tensor_get logit))
      letters.
Proof.
  unfold gather, letters. simpl.
  destruct (pick (input_ids tokenizer "A")) as [ia| |]; simpl; try done.
  destruct (tensor_get logit ia) as [a| |]; simpl; try done.
  destruct (pick (input_ids tokenizer "B")) as [ib| |]; simpl; try done.
  destruct (tensor_get logit ib) as [b| |]; simpl; try done.
  destruct (pick (input_ids tokenizer "C")) as [ic| |]; simpl; try done.
  destruct (tensor_get logit ic) as [c| |]; simpl; try done.
  destruct (pick (input_ids tokenizer "D")) as [id| |]; simpl; try done.
  destruct (tensor_get logit id) as [d| |]; simpl; done.
Qed.

Lemma gather_length pick (logit v : list F) :
  gather' pick logit = Ok v → length v = 4%nat.
Proof. rewrite gather_letters. intros Hv. by apply omap_length in Hv. Qed.

Lemma spec_gather_pick (logit : list F) :
  spec_gather tokenizer model_name logit
  = gather' (if alpaca' then py_last else py_first) logit.
Proof.
  rewrite gather_letters. unfold spec_gather, spec_token_id.
  by destruct alpaca'.
Qed.

Lemma predict_standard (logit : list F) :
  alpaca' = false → predict' logit = spec_predict' logit.
Proof.
  unfold predict, spec_predict. rewrite spec_gather_pick.
  intros ->. by destruct (gather' py_first logit).
Qed.

Lemma predict_alpaca (logit : list F) :
  alpaca' = true → is_ok (gather' py_first logit) = true →
  predict' logit = spec_predict' logit.
Proof.
  unfold predict, spec_predict. rewrite spec_gather_pick.
  intros ->. destruct (gather' py_first logit) as [v1| |]; simpl; try done.
  intros _. by destruct (gather' py_last logit).
Qed.

Lemma predict_ok_spec (logit : list F) pred :
  predict' logit = Ok pred → spec_predict' logit = Ok pred.
Proof.
  unfold predict, spec_predict. rewrite spec_gather_pick.
  destruct alpaca'.
  - destruct (gather' py_first logit) as [v1| |]; simpl; try done.
    by destruct (gather' py_last logit).
  - by destruct (gather' py_first logit).
Qed.

(** The subscripts [[0]] and [[-1]] by the shape of the list. *)
Lemma py_first_iff {A} (l : list A) x :
  py_first l = Ok x ↔ ∃ rest, l = x :: rest.
Proof.
  unfold py_first. rewrite <- head_Some.
  destruct (head l); simpl; split; congruence.
Qed.

Lemma py_last_iff {A} (l : list A) x :
  py_last l = Ok x ↔ ∃ init, l = (init ++ [x])%list.
Proof.
  unfold py_last. rewrite <- last_Some.
  destruct (last l); simpl; split; congruence.
Qed.

(** The lookups of the four letters, once their subscripted ids are
    known. *)
Lemma gather_at (pick : list Z → outcome Z) (logit : list F) ids :
  Forall2 (fun s id => pick (input_ids tokenizer s) = Ok id) letters ids →
  gather' pick logit = omap (tensor_get logit) ids.
Proof.
  rewrite gather_letters. generalize letters as ss. intros ss Hids.
  induction Hids as [|s id ss ids Hs _ IH]; [done|].
  cbn [omap]. by rewrite Hs, IH.
Qed.

(** C7. The prediction of lines 40-73 is the one computed from the four
    logits at the token ids the specification names: the first sub-token
    id of "A", "B", "C", "D" for a standard model, the last sub-token id
    for a model of the "alpaca" family. For the latter the code first
    evaluates the lookup through the first sub-token ids as well, and
    that lookup has to succeed. The token id the specification names is
    the head of the list of sub-token ids for a standard model and its
    final element for the "alpaca" family, and the prediction is the
    letter of the greatest probability over the logits at these four
    ids. *)
Theorem predict_token_ids (logit : list F) :
  (alpaca' = false → predict' logit = spec_predict' logit)
  ∧ (alpaca' = true →
     is_ok (gather' py_first logit) = true →
     predict' logit = spec_predict' logit)
  ∧ (∀ pred, predict' logit = Ok pred → spec_predict' logit = Ok pred)
  ∧ (∀ s id,
       spec_token_id tokenizer model_name s = Ok id
       ↔ if alpaca model_name
         then ∃ init, input_ids tokenizer s = (init ++ [id])%list
         else ∃ rest, input_ids tokenizer s = id :: rest)
  ∧ (∀ ids,
       alpaca' = false →
       Forall2 (fun s id => ∃ rest, input_ids tokenizer s = id :: rest)
         letters ids →
       predict' logit
       = obind (omap (tensor_get logit) ids)
           (fun v => obind (argmax (softmax v)) letter))
  ∧ (∀ ids,
       alpaca' = true →
       is_ok (gather' py_first logit) = true →
       Forall2 (fun s id => ∃ init, input_ids tokenizer s = (init ++ [id])%list)
         letters ids →
       predict' logit
       = obind (omap (tensor_get logit) ids)
           (fun v => obind (argmax (softmax v)) letter)).
Proof.
  split; [apply predict_standard|]. split; [apply predict_alpaca|].
  split; [apply predict_ok_spec|]. split; [|split].
  - intros s id. unfold spec_token_id.
    destruct alpaca'; [apply py_last_iff|apply py_first_iff].
  - intros ids Hstd Hids. rewrite (predict_standard logit Hstd).
    unfold spec_predict. rewrite spec_gather_pick, Hstd.
    rewrite (gather_at py_first logit ids); [done|].
    eapply Forall2_impl; [exact Hids|]. intros s id Hs.
    by apply py_first_iff.
  - intros ids Halp Hfirst Hids. rewrite (predict_alpaca logit Halp Hfirst).
    unfold spec_predict. rewrite spec_gather_pick, Halp.
    rewrite (gather_at py_last logit ids); [done|].
    eapply Forall2_impl; [exact Hids|]. intros s id Hs.
    by apply py_last_iff.
Qed.

(** C6. When the four gathered logits are equal, the prediction is "A". *)
Theorem uniform_logits_predict_A (logit : list F) (x : F) :
  is_ok (gather' py_first logit) = true →
  spec_gather tokenizer model_name logit = Ok [x; x; x; x] →
  predict' logit = Ok "A".
Proof.
  intros Hfirst Hgather.
  assert (Hspec : spec_predict' logit = Ok "A").
  { unfold spec_predict. rewrite Hgather. cbn [obind].
    destruct (softmax_replicate 4 x) as [p Hp]. cbn [replicate] in Hp.
    rewrite Hp. by rewrite (argmax_replicate 3 p). }
  destruct alpaca' eqn:E.
  - by rewrite predict_alpaca.
  - by rewrite predict_standard.
Qed.

(** The prediction is one of the four letters, the one at the first
    position of the greatest of the four probabilities. *)
Lemma spec_predict_max (logit : list F) pred :
  spec_predict' logit = Ok pred →
  ∃ v n, spec_gather tokenizer model_name logit = Ok v
         ∧ length v = 4%nat
         ∧ argmax (softmax v) = Ok n
         ∧ letters !! n = Some pred
         ∧ (Forall (fun p => fisnan p = false) (softmax v) →
            ∃ m, softmax v !! n = Some m
                 ∧ Forall (fun p => fleb p m = true) (softmax v)
                 ∧ (∀ j p, (j < n)%nat → softmax v !! j = Some p →
                      fleb m p = false)).
Proof.
  unfold spec_predict.
  destruct (spec_gather tokenizer model_name logit) as [v| |] eqn:Ev; simpl; try done.
  destruct (argmax (softmax v)) as [n| |] eqn:En; simpl; try done.
  intros Hl. exists v, n. split; [done|].
  rewrite spec_gather_pick in Ev. apply gather_length in Ev.
  split; [done|]. split; [done|]. split.
  - by destruct n as [|[|[|[|n]]]]; simpl in *; try injection Hl as <-.
  - intros Hnan. by apply argmax_max.
Qed.

(** *** The update of the counters and of the two lists *)

Lemma score_rows_cons (row : list F) rows i labels preds self :
  score_rows tokenizer model_name (row :: rows) i labels preds self
  = match labels !! i with
    | None => (Raise IndexError, self)
    | Some label =>
        match predict' row with
        | Ok pred =>
            score_rows tokenizer model_name rows (S i) labels
              (preds ++ [pred])%list
              (add_correct (String.eqb (PyStr.strip pred) (PyStr.strip label)) self)
        | Raise e => (Raise e, self)
        | OutOfFuel => (OutOfFuel, self)
        end
    end.
Proof.
  cbn [score_rows]. unfold bind, lift, modify, of_option.
  destruct (labels !! i); [|done]. by destruct (predict' row).
Qed.

Lemma score_rows_spec (rows : list (list F)) i labels preds0 golds preds self :
  omap predict' rows = Ok preds →
  take (length rows) (drop i labels) = golds →
  length golds = length rows →
  score_rows tokenizer model_name rows i labels preds0 self
  = (Ok (preds0 ++ preds)%list,
     {| total := total self; correct := correct self + matches preds golds;
        all_preds := all_preds self; all_golds := all_golds self |}).
Proof.
  revert i preds0 golds preds self.
  induction rows as [|row rows IH]; intros i preds0 golds preds self.
  - simpl. intros [= <-] <- _. unfold ret. rewrite app_nil_r. unfold matches. simpl.
    destruct self; simpl. do 2 f_equal. lia.
  - cbn [omap]. destruct (predict' row) as [pred| |] eqn:Ep; cbn [obind]; try done.
    destruct (omap predict' rows) as [preds'| |] eqn:Eps; cbn [obind]; try done.
    intros [= <-] Hgolds Hlen. cbn [length] in *.
    destruct (drop i labels) as [|label rest] eqn:Ed.
    { subst golds. simpl in Hlen. lia. }
    assert (labels !! i = Some label) as Hi.
    { pose proof (lookup_drop labels i 0) as Hd.
      rewrite Ed, Nat.add_0_r in Hd. by rewrite <- Hd. }
    rewrite score_rows_cons, Hi, Ep.
    assert (drop (S i) labels = rest) as Hrest.
    { replace (S i) with (i + 1)%nat by lia. by rewrite <- drop_drop, Ed. }
    subst golds. simpl in Hlen.
    rewrite (IH (S i) _ (take (length rows) rest) preds');
      [|done|by rewrite Hrest|lia].
    rewrite <- app_assoc. simpl. unfold matches. simpl. do 2 f_equal. lia.
Qed.

Lemma update_ok (logits : list (list (list F))) (labels : list (list Z))
  rows preds self :
  length labels = length logits →
  select_position model_name logits = Ok rows →
  omap predict' rows = Ok preds →
  update tokenizer model_name logits labels self
  = (Ok tt,
     {| total := total self + Z.of_nat (length logits);
        correct := correct self + matches preds (batch_decode tokenizer labels);
        all_preds := (all_preds self ++ preds)%list;
        all_golds := (all_golds self ++ batch_decode tokenizer labels)%list |}).
Proof.
  intros Hlen Hrows Hpreds.
  pose proof (omap_length _ _ _ Hrows) as Hlr.
  assert (length (batch_decode tokenizer labels) = length rows) as Hld.
  { unfold batch_decode. rewrite length_map. lia. }
  unfold update. unfold_method. rewrite Hrows.
  rewrite (score_rows_spec rows 0 _ [] (batch_decode tokenizer labels) preds);
    [done|done| |done].
  rewrite drop_0. apply take_ge. lia.
Qed.

(** C2. On a batch with one label per example, whose selected logit
    vectors all give a prediction, [update] adds the number of examples
    to [total], adds to [correct] the number of predictions equal to
    their decoded gold label once both are trimmed, and appends the
    predictions and the decoded labels, in order, to [all_preds] and
    [all_golds]; each prediction is the letter at the position [argmax]
    returns on the softmax of the four logits at the token ids of "A",
    "B", "C", "D", which, no probability being NaN, is the first position
    of the greatest of the four probabilities. *)
Theorem update_spec (logits : list (list (list F))) (labels : list (list Z))
  rows preds self :
  length labels = length logits →
  select_position model_name logits = Ok rows →
  omap predict' rows = Ok preds →
  update tokenizer model_name logits labels self
  = (Ok tt,
     {| total := total self + Z.of_nat (length logits);
        correct := correct self + matches preds (batch_decode tokenizer labels);
        all_preds := (all_preds self ++ preds)%list;
        all_golds := (all_golds self ++ batch_decode tokenizer labels)%list |})
  ∧ length preds = length (batch_decode tokenizer labels)
  ∧ (∀ i row pred, rows !! i = Some row → preds !! i = Some pred →
       ∃ v n, spec_gather tokenizer model_name row = Ok v
              ∧ length v = 4%nat
              ∧ argmax (softmax v) = Ok n
              ∧ letters !! n = Some pred
              ∧ (Forall (fun p => fisnan p = false) (softmax v) →
                 ∃ m, softmax v !! n = Some m
                      ∧ Forall (fun p => fleb p m = true) (softmax v)
                      ∧ (∀ j p, (j < n)%nat → softmax v !! j = Some p →
                           fleb m p = false))).
Proof.
  intros Hlen Hrows Hpreds.
  pose proof (omap_length _ _ _ Hrows) as Hlr.
  pose proof (omap_length _ _ _ Hpreds) as Hlp.
  split; [by apply (update_ok logits labels rows preds self)|]. split.
  - unfold batch_decode. rewrite length_map. lia.
  - intros i row pred Hrow Hpred.
    destruct (omap_lookup _ _ _ _ _ Hpreds Hrow) as (pred' & Hp' & Hpr).
    assert (pred' = pred) as -> by congruence.
    by apply spec_predict_max, predict_ok_spec.
Qed.

(** Whatever the outcome, [update] keeps [0 <= correct <= total]. *)
Lemma score_rows_bound (rows : list (list F)) i labels preds0 self o self' :
  score_rows tokenizer model_name rows i labels preds0 self = (o, self') →
  total self' = total self
  ∧ (correct self ≤ correct self' ≤ correct self + Z.of_nat (length rows))%Z.
Proof.
  revert i preds0 self.
  induction rows as [|row rows IH]; intros i preds0 self.
  - simpl. unfold ret. intros [= <- <-]. lia.
  - rewrite score_rows_cons. cbn [length].
    destruct (labels !! i) as [label|]; [|intros [= <- <-]; lia].
    destruct (predict' row) as [pred| |]; try (intros [= <- <-]; lia).
    intros E. apply IH in E as [-> Hc]. simpl in Hc. split; [done|].
    destruct (String.eqb _ _); simpl in Hc; lia.
Qed.

Lemma update_bound (logits : list (list (list F))) labels self o self' :
  update tokenizer model_name logits labels self = (o, self') →
  (0 ≤ correct self ≤ total self)%Z →
  (0 ≤ correct self' ≤ total self')%Z.
Proof.
  unfold update. unfold_method.
  destruct (select_position model_name logits) as [rows| |] eqn:Er;
    try (intros [= <- <-]; simpl; lia).
  apply omap_length in Er.
  destruct (score_rows _ _ _ _ _ _ _) as [[preds| |] self1] eqn:Es;
    apply score_rows_bound in Es as [Ht Hc]; simpl in *;
    intros [= <- <-]; simpl; lia.
Qed.

End ScorerFacts.

(** A standard model on the flat logit vector. *)
Lemma uniform_logits_predict_A_witness :
  predict Demo.char_tokenizer Demo.standard_name Demo.flat_logit = Ok "A".
Proof.
  apply (uniform_logits_predict_A Demo.char_tokenizer Demo.standard_name
           Demo.flat_logit (3 # 2)%Q).
  - vm_compute. reflexivity.
  - vm_compute. reflexivity.
Defined.

(** A tokenizer that starts every string with the begin-of-sequence token:
    the first sub-token id of each letter is that token, the last one is
    the token of the letter. On logits that peak at the token of "C", a
    model of the "alpaca" family predicts "C", from the last ids 65, 66,
    67 and 68, and a standard model predicts "A", from four times the
    begin-of-sequence token. *)
Lemma predict_token_ids_witness :
  predict Demo.bos_tokenizer Demo.alpaca_name Demo.peaked_logit = Ok "C"
  ∧ predict Demo.bos_tokenizer Demo.standard_name Demo.peaked_logit = Ok "A"
  ∧ spec_token_id Demo.bos_tokenizer Demo.alpaca_name "C" = Ok 67%Z
  ∧ spec_token_id Demo.bos_tokenizer Demo.standard_name "C" = Ok 1%Z.
Proof.
  destruct (predict_token_ids Demo.bos_tokenizer Demo.alpaca_name
              Demo.peaked_logit) as (_ & _ & _ & Hid & _ & Hlast).
  destruct (predict_token_ids Demo.bos_tokenizer Demo.standard_name
              Demo.peaked_logit) as (_ & _ & _ & Hid' & Hfirst & _).
  split; [|split; [|split]].
  - rewrite (Hlast [65; 66; 67; 68]%Z).
    + vm_compute. reflexivity.
    + vm_compute. reflexivity.
    + vm_compute. reflexivity.
    + repeat constructor; by exists [1%Z].
  - rewrite (Hfirst [1; 1; 1; 1]%Z).
    + vm_compute. reflexivity.
    + vm_compute. reflexivity.
    + repeat constructor; by eexists.
  - apply Hid. change (alpaca Demo.alpaca_name) with true. by exists [1%Z].
  - apply Hid'. change (alpaca Demo.standard_name) with false. by eexists.
Defined.

(** The batch of the three running examples: two predictions match their
    gold letter, one of them only after trimming. *)
Lemma update_spec_witness :
  update Demo.char_tokenizer Demo.standard_name Demo.logits Demo.labels
    Demo.new_metric
  = (Ok tt,
     {| total := 3; correct := 2;
        all_preds := ["A"; "D"; "A"]; all_golds := ["A"; " D "; "B"] |}).
Proof.
  destruct (update_spec Demo.char_tokenizer Demo.standard_name Demo.logits
              Demo.labels Demo.rows Demo.preds Demo.new_metric) as [Hupdate _].
  - vm_compute. reflexivity.
  - vm_compute. reflexivity.
  - vm_compute. reflexivity.
  - etransitivity; [exact Hupdate|]. vm_compute. reflexivity.
Defined.

(* ===================================================================== *)
(** * Properties of the batches and of the adapter *)
(* ===================================================================== *)

Section BatchFacts.

Variable tokenizer : Tokenizer.
Variable padding_side truncation_side : side.

Local Abbreviation truncate' := (truncate truncation_side).
Local Abbreviation pad_longest' := (pad_longest padding_side).
Local Abbreviation collate_fn' := (collate_fn tokenizer padding_side truncation_side).

Lemma length_truncate n ids :
  length (truncate' n ids) = Nat.min n (length ids).
Proof.
  unfold truncate. destruct truncation_side.
  - rewrite length_drop. lia.
  - apply length_take.
Qed.

Lemma longest_ge rows (r : list Z) : r ∈ rows → (length r ≤ longest rows)%nat.
Proof.
  unfold longest. induction rows as [|r' rows IH]; [by intros ?%elem_of_nil|].
  intros [->|Hr]%elem_of_cons; simpl; [lia|]. specialize (IH Hr). lia.
Qed.

Lemma longest_le rows n :
  Forall (fun r : list Z => (length r ≤ n)%nat) rows → (longest rows ≤ n)%nat.
Proof.
  unfold longest. induction 1 as [|r rows Hr _ IH]; simpl; lia.
Qed.

Lemma length_pad_to n fill ids :
  length (pad_to padding_side n fill ids) = Nat.max n (length ids).
Proof.
  unfold pad_to. destruct padding_side;
    rewrite length_app, length_replicate; lia.
Qed.

Lemma pad_to_full n fill ids :
  (n ≤ length ids)%nat → pad_to padding_side n fill ids = ids.
Proof.
  intros Hn. unfold pad_to. replace (n - length ids)%nat with 0%nat by lia.
  simpl. destruct padding_side; [done|apply app_nil_r].
Qed.

(** Padding to the longest row gives a rectangular matrix. *)
Lemma pad_longest_row fill rows row :
  row ∈ pad_longest' fill rows → length row = longest rows.
Proof.
  unfold pad_longest. intros (r & -> & Hr)%list_elem_of_fmap.
  rewrite length_pad_to. apply longest_ge in Hr. lia.
Qed.

Lemma length_pad_longest fill rows :
  length (pad_longest' fill rows) = length rows.
Proof. unfold pad_longest. apply length_map. Qed.

Lemma truncated_le (f : string → list Z) n texts :
  Forall (fun r : list Z => (length r ≤ n)%nat)
    (map (fun s => truncate' n (f s)) texts).
Proof.
  apply Forall_forall. intros r (s & -> & _)%list_elem_of_fmap.
  rewrite length_truncate. lia.
Qed.

(** The three matrices of a tokenizer call. *)
Lemma tokenizer_call_lookup text text_target n key rows :
  tokenizer_call tokenizer padding_side truncation_side text text_target n
    !! key = Some rows →
  (key = "input_ids"
   ∧ rows = pad_longest' (pad_token_id tokenizer)
              (map (fun s => truncate' n (input_ids tokenizer s)) text))
  ∨ (key = "attention_mask"
     ∧ rows = pad_longest' 0
                (map (fun r => replicate (length r) 1%Z)
                   (map (fun s => truncate' n (input_ids tokenizer s)) text)))
  ∨ (key = "labels"
     ∧ rows = pad_longest' (pad_token_id tokenizer)
                (map (fun s => truncate' n (input_ids tokenizer s)) text_target)).
Proof.
  unfold tokenizer_call. intros Hkey.
  apply lookup_insert_Some in Hkey as [[<- <-]|[_ Hkey]]; [by left|].
  apply lookup_insert_Some in Hkey as [[<- <-]|[_ Hkey]]; [by right; left|].
  apply lookup_insert_Some in Hkey as [[<- <-]|[_ Hkey]]; [by right; right|].
  by rewrite lookup_empty in Hkey.
Qed.

Lemma collate_rows (batch : list Example) (enc : Batch) key rows :
  collate_fn' batch = Ok enc → enc !! key = Some rows →
  length rows = length batch
  ∧ Forall (fun row => (length row ≤ 512)%nat) rows.
Proof.
  unfold collate_fn. destruct batch as [|e0 batch0] eqn:Eb; [done|].
  rewrite <- Eb. intros [= <-] Hkey.
  apply tokenizer_call_lookup in Hkey as [[_ ->]|[[_ ->]|[_ ->]]];
    rewrite length_pad_longest, ?length_map; (split; [done|]);
    apply Forall_forall; intros row Hrow;
    apply pad_longest_row in Hrow; rewrite Hrow; apply longest_le.
  - apply truncated_le.
  - apply Forall_forall. intros r (r' & -> & Hr')%list_elem_of_fmap.
    rewrite length_replicate.
    revert r' Hr'. apply Forall_forall, truncated_le.
  - apply truncated_le.
Qed.

(** C9. Every row of every matrix of a collated batch has at most 512
    entries, and each matrix has one row per example. A prompt of more
    than 512 tokens is cut to 512 of them, whether or not it fits the
    2048-token budget of the prompt builder: the rest of it does not
    reach the network. *)
Theorem collate_truncates (batch : list Example) :
  batch ≠ [] →
  ∃ enc,
    collate_fn tokenizer padding_side truncation_side batch = Ok enc
    ∧ (∀ key rows, enc !! key = Some rows →
         length rows = length batch
         ∧ Forall (fun row => (length row ≤ 512)%nat) rows)
    ∧ (∀ i e, batch !! i = Some e →
         (512 < length (input_ids tokenizer (input e)))%nat →
         ∃ rows row,
           enc !! "input_ids" = Some rows
           ∧ rows !! i = Some row
           ∧ row = truncate truncation_side 512 (input_ids tokenizer (input e))
           ∧ length row = 512%nat
           ∧ (length row < length (input_ids tokenizer (input e)))%nat).
Proof.
  intros Hne.
  assert (∃ enc, collate_fn' batch = Ok enc) as [enc Henc].
  { unfold collate_fn. destruct batch; [done|]. by eexists. }
  exists enc. split; [done|].
  split; [intros key rows; by apply (collate_rows batch enc)|].
  revert Henc.
  unfold collate_fn. destruct batch as [|e0 batch0] eqn:Eb; [done|].
  rewrite <- Eb. intros [= <-].
  intros i e Hi Hlong.
  set (enc_rows := map (fun s => truncate' 512 (input_ids tokenizer s))
                     (map input batch)).
  set (row := truncate' 512 (input_ids tokenizer (input e))).
  assert (length row = 512%nat) as Hrow.
  { unfold row. rewrite length_truncate. lia. }
  assert (enc_rows !! i = Some row) as Hir.
  { unfold enc_rows. by rewrite !list_lookup_fmap, Hi. }
  assert (longest enc_rows = 512%nat) as Hmax.
  { apply Nat.le_antisymm.
    - apply longest_le, truncated_le.
    - rewrite <- Hrow. apply longest_ge. by eapply list_elem_of_lookup_2. }
  exists (pad_longest' (pad_token_id tokenizer) enc_rows), row.
  split; [unfold tokenizer_call; by rewrite lookup_insert_eq|].
  split.
  { unfold pad_longest. rewrite list_lookup_fmap, Hir. simpl.
    rewrite pad_to_full; [done|lia]. }
  split; [done|]. split; [done|lia].
Qed.

End BatchFacts.

(** The entry built for a question of 600 characters with one few-shot
    example is admitted by the prompt builder and cut by the collation. *)
Lemma collate_truncates_witness :
  testset
    (prepare_data Demo.format_example Demo.gen_prompt Demo.char_tokenizer
       Demo.subject 1 Demo.dev_df Demo.test_mid None 0
       {| testset := []; valset := [] |}).2
  = [Demo.mid_example]
  ∧ ∃ enc,
      collate_fn Demo.char_tokenizer Right Right [Demo.mid_example] = Ok enc
      ∧ ∃ rows row,
          enc !! "input_ids" = Some rows
          ∧ rows !! 0%nat = Some row
          ∧ row = truncate Right 512
                    (input_ids Demo.char_tokenizer (input Demo.mid_example))
          ∧ length row = 512%nat
          ∧ (length row
             < length (input_ids Demo.char_tokenizer (input Demo.mid_example)))%nat.
Proof.
  split; [vm_compute; reflexivity|].
  destruct (collate_truncates Demo.char_tokenizer Right Right
              [Demo.mid_example]) as (enc & Henc & _ & Hcut); [done|].
  exists enc. split; [exact Henc|].
  apply (Hcut 0%nat Demo.mid_example).
  - reflexivity.
  - apply Nat.ltb_lt. vm_compute. reflexivity.
Defined.

Section AdapterFacts.

Context {F : Type} `{FloatOps F}.

Variable tokenizer : Tokenizer.
Variable model_name : string.
Variable model : Batch → list (list (list F)).
Variable padding_side truncation_side : side.

Local Abbreviation test_step' := (test_step tokenizer model_name model).
Local Abbreviation update' := (update tokenizer model_name).
Local Abbreviation collate_fn' := (collate_fn tokenizer padding_side truncation_side).
Local Abbreviation test_loop' :=
  (test_loop tokenizer model_name model padding_side truncation_side).

Lemma test_step_labels (batch : Batch) (labels : list (list Z)) self :
  batch !! "labels" = Some labels →
  test_step' batch self
  = (run update' (model (forward_batch model_name batch)) labels;
     ret (forward_batch model_name batch)) self.
Proof.
  intros Hlabels. unfold test_step, take_labels, pop_labels, forward_batch.
  destruct (alpaca model_name); by rewrite Hlabels.
Qed.


(** *** One pass over a data set *)

Lemma batch_sampler_concat {A} n (batch l : list A) :
  concat (batch_sampler n batch l) = (batch ++ l)%list.
Proof.
  revert batch. induction l as [|x l IH]; intros batch; simpl.
  - destruct batch; simpl; by rewrite ?app_nil_r.
  - destruct (_ =? _)%nat; simpl; rewrite IH; by rewrite <- ?app_assoc.
Qed.

Lemma collate_labels batch enc :
  collate_fn' batch = Ok enc →
  ∃ labels, enc !! "labels" = Some labels ∧ length labels = length batch.
Proof.
  intros Henc.
  assert (is_Some (enc !! "labels")) as [labels Hl].
  { revert Henc. unfold collate_fn. destruct batch; [done|]. intros [= <-].
    unfold tokenizer_call. rewrite lookup_insert_ne by done.
    rewrite lookup_insert_ne by done. by rewrite lookup_insert_eq. }
  exists labels. split; [done|].
  by destruct (collate_rows _ _ _ _ _ _ _ Henc Hl).
Qed.

Lemma test_step_ok batch enc self :
  collate_fn' batch = Ok enc →
  well_shaped tokenizer model_name
    (model (forward_batch model_name enc)) (length batch) = true →
  (0 ≤ correct self ≤ total self)%Z →
  ∃ self',
    test_step' enc self = (Ok (forward_batch model_name enc), self')
    ∧ total self' = (total self + Z.of_nat (length batch))%Z
    ∧ (0 ≤ correct self' ≤ total self')%Z
    ∧ length (all_preds self') = (length (all_preds self) + length batch)%nat
    ∧ length (all_golds self') = (length (all_golds self) + length batch)%nat.
Proof.
  intros Henc Hshape Hinv.
  destruct (collate_labels _ _ Henc) as (labels & Hl & Hlen).
  apply andb_true_iff in Hshape as [Hn Hscore]. apply Nat.eqb_eq in Hn.
  destruct (select_position model_name _) as [rows| |] eqn:Erows; try done.
  simpl in Hscore.
  destruct (omap (predict tokenizer model_name) rows) as [preds| |] eqn:Epreds;
    try done.
  assert (length labels = length (model (forward_batch model_name enc)))
    as Hll by lia.
  pose proof (update_ok tokenizer model_name _ labels rows preds self
                Hll Erows Epreds) as Hupd.
  pose proof (omap_length _ _ _ Epreds) as Hlp.
  pose proof (omap_length _ _ _ Erows) as Hlr.
  assert (length (batch_decode tokenizer labels) = length batch) as Hdec.
  { unfold batch_decode. by rewrite length_map. }
  pose proof (update_bound tokenizer model_name _ _ _ _ _ Hupd Hinv) as Hb.
  eexists. split.
  { rewrite (test_step_labels enc labels self Hl). unfold bind, ret.
    rewrite Hupd. reflexivity. }
  simpl in *. rewrite !length_app. rewrite Hn in *.
  split; [done|]. split; [done|]. split; lia.
Qed.

Lemma test_loop_ok batches self :
  batches_ok tokenizer model_name model padding_side truncation_side batches
  = true →
  (0 ≤ correct self ≤ total self)%Z →
  ∃ self',
    test_loop' batches self = (Ok tt, self')
    ∧ total self' = (total self + Z.of_nat (length (concat batches)))%Z
    ∧ (0 ≤ correct self' ≤ total self')%Z
    ∧ length (all_preds self')
      = (length (all_preds self) + length (concat batches))%nat
    ∧ length (all_golds self')
      = (length (all_golds self) + length (concat batches))%nat.
Proof.
  revert self. induction batches as [|b batches IH]; intros self Hok Hinv.
  - exists self. simpl. unfold ret. repeat split; lia.
  - simpl in Hok. apply andb_true_iff in Hok as [Hb Hok].
    destruct (collate_fn' b) as [enc| |] eqn:Eenc; try done.
    destruct (test_step_ok b enc self Eenc Hb Hinv)
      as (self1 & Hstep & Ht & Hc & Hp & Hg).
    destruct (IH self1 Hok Hc) as (self' & Hloop & Ht' & Hc' & Hp' & Hg').
    exists self'. split.
    + cbn [test_loop]. unfold bind, lift. rewrite Eenc, Hstep. exact Hloop.
    + simpl. rewrite length_app. split; [lia|]. split; [done|]. split; lia.
Qed.

End AdapterFacts.

Section FullPass.

Context {F : Type} `{FloatOps F}.

Variable format_example : DataFrame → nat → bool → string.
Variable gen_prompt : DataFrame → string → Z → string.
Variable tokenizer : Tokenizer.
Variable subject : string.
Variable ntrain : Z.
Variable dev_df test_df : DataFrame.
Variable model_name : string.
Variable model : Batch → list (list (list F)).
Variable padding_side truncation_side : side.
Variable batch_size : Z.

(** C5. Let [prepare_data] return on a test table of N rows, and let
    the logits of every batch of the test loader be scorable. Then one
    pass of [trainer.test] returns with [total = N], with
    [0 <= correct <= total] and with N predictions and N gold labels
    recorded; and every [update], whatever its outcome, keeps
    [0 <= correct <= total]. *)
Theorem full_pass_counts fuel self data_module metric :
  prepare_data format_example gen_prompt tokenizer subject ntrain dev_df
    test_df None fuel self = (Ok tt, data_module) →
  (0 < batch_size)%Z →
  batches_ok tokenizer model_name model padding_side truncation_side
    (batch_sampler (Z.to_nat batch_size) [] (testset data_module)) = true →
  (∃ metric',
     trainer_test tokenizer model_name model padding_side truncation_side
       batch_size data_module metric = (Ok tt, metric')
     ∧ total metric' = Z.of_nat (length test_df)
     ∧ (0 ≤ correct metric' ≤ total metric')%Z
     ∧ length (all_preds metric') = length test_df
     ∧ length (all_golds metric') = length test_df)
  ∧ (∀ (logits : list (list (list F))) labels m o m',
       update tokenizer model_name logits labels m = (o, m') →
       (0 ≤ correct m ≤ total m)%Z → (0 ≤ correct m' ≤ total m')%Z).
Proof.
  intros Hprep Hsize Hok. split; [|apply update_bound].
  apply prepare_data_lengths in Hprep as [Hn _].
  unfold trainer_test, test_dataloader, on_test_start.
  destruct (Z.leb_spec batch_size 0) as [|_]; [lia|].
  unfold bind at 1. unfold lift. unfold bind, modify.
  destruct (test_loop_ok tokenizer model_name model padding_side
              truncation_side _
              {| total := 0; correct := 0; all_preds := []; all_golds := [] |}
              Hok) as (m' & -> & Ht & Hc & Hp & Hg); [simpl; lia|].
  rewrite batch_sampler_concat in *. simpl in *.
  exists m'. rewrite <- Hn. repeat split; (done || lia).
Qed.

End FullPass.


(** One pass over the three test rows of the running instance, in batches
    of two. *)
Lemma full_pass_counts_witness :
  ∃ metric',
    trainer_test Demo.char_tokenizer Demo.standard_name Demo.model Right Right
      2 Demo.prepared Demo.new_metric = (Ok tt, metric')
    ∧ total metric' = 3%Z
    ∧ (0 ≤ correct metric' ≤ total metric')%Z
    ∧ length (all_preds metric') = 3%nat
    ∧ length (all_golds metric') = 3%nat.
Proof.
  apply (full_pass_counts Demo.format_example Demo.gen_prompt
           Demo.char_tokenizer Demo.subject 1 Demo.dev_df Demo.test_df
           Demo.standard_name Demo.model Right Right 2 0%nat
           {| testset := []; valset := [] |} Demo.prepared Demo.new_metric).
  - vm_compute. reflexivity.
  - lia.
  - vm_compute. reflexivity.
Defined.

(* ===================================================================== *)
(** * Properties of the aggregator *)
(* ===================================================================== *)

Section AggregatorFacts.

Variable subcategories : gmap string (list string).
Variable categories : gmap string (list string).

Local Abbreviation for_subcats' := (for_subcats categories).
Local Abbreviation for_subjects' := (for_subjects subcategories categories).
Local Abbreviation cat_has' := (cat_has categories).
Local Abbreviation subcats_of' := (subcats_of subcategories).

Lemma append_at_ok key x (d : gmap string Cors) l :
  d !! key = Some l → append_at key x d = Ok (<[key := (l ++ [x])%list]> d).
Proof. intros Hl. unfold append_at. by rewrite Hl. Qed.

(** The loop over the categories appends to each category that has the
    subcategory, and to no other. *)
Lemma for_keys_spec keys subcat x (d : gmap string Cors) :
  NoDup keys.*1 →
  (∀ kv, kv ∈ keys → is_Some (d !! kv.1)) →
  ∃ d', for_keys keys subcat x d = Ok d'
        ∧ ∀ cat,
            ((∃ members, (cat, members) ∈ keys ∧ subcat ∈ members) →
             d' !! cat = (fun l => (l ++ [x])%list) <$> d !! cat)
            ∧ ((∀ members, (cat, members) ∈ keys → subcat ∉ members) →
               d' !! cat = d !! cat).
Proof.
  revert d. induction keys as [|[key members] keys IH]; intros d Hnd Hdom.
  - exists d. split; [done|]. intros cat. split; [|done].
    intros (m & Hm & _). by apply elem_of_nil in Hm.
  - simpl in Hnd. apply NoDup_cons in Hnd as [Hkey Hnd].
    assert (∀ m, (key, m) ∉ keys) as Hfresh.
    { intros m Hm. apply Hkey. apply list_elem_of_fmap. by exists (key, m). }
    simpl. case_bool_decide as Hin.
    + destruct (Hdom (key, members)) as [l Hl]; [apply elem_of_cons; by left|].
      simpl in Hl. rewrite (append_at_ok _ _ _ _ Hl). simpl.
      destruct (IH (<[key := (l ++ [x])%list]> d) Hnd) as (d' & -> & Hd').
      { intros kv Hkv. destruct (decide (key = kv.1)) as [<-|Hne].
        - rewrite lookup_insert_eq. by eexists.
        - rewrite lookup_insert_ne by done. apply Hdom, elem_of_cons. by right. }
      exists d'. split; [done|]. intros cat.
      destruct (decide (cat = key)) as [->|Hne].
      * destruct (Hd' key) as [_ Hmiss]. rewrite Hmiss.
        2:{ intros m Hm. by destruct (Hfresh m). }
        rewrite lookup_insert_eq, Hl. split; [done|].
        intros Hno. destruct (Hno members); [apply elem_of_cons; by left|done].
      * destruct (Hd' cat) as [Hhit Hmiss].
        rewrite lookup_insert_ne in Hhit, Hmiss by done. split.
        -- intros (m & Hm & Hsm). apply Hhit. exists m. split; [|done].
           apply elem_of_cons in Hm as [[= ? ?]|Hm]; [done|done].
        -- intros Hno. apply Hmiss. intros m Hm. apply Hno, elem_of_cons.
           by right.
    + destruct (IH d Hnd) as (d' & -> & Hd').
      { intros kv Hkv. apply Hdom, elem_of_cons. by right. }
      exists d'. split; [done|]. intros cat. destruct (Hd' cat) as [Hhit Hmiss].
      split.
      * intros (m & Hm & Hsm). apply Hhit. exists m. split; [|done].
        apply elem_of_cons in Hm as [[= -> ->]|Hm]; [done|done].
      * intros Hno. apply Hmiss. intros m Hm. apply Hno, elem_of_cons.
        by right.
Qed.

Lemma for_keys_categories subcat x (d : gmap string Cors) :
  (∀ cat, is_Some (categories !! cat) → is_Some (d !! cat)) →
  ∃ d', for_keys (map_to_list categories) subcat x d = Ok d'
        ∧ ∀ cat, d' !! cat
                 = (fun l => (l ++ if cat_has' cat subcat then [x] else [])%list)
                     <$> d !! cat.
Proof.
  intros Hdom.
  destruct (for_keys_spec (map_to_list categories) subcat x d)
    as (d' & Hd' & Hspec).
  - apply NoDup_fst_map_to_list.
  - intros [cat m] Hkv. apply elem_of_map_to_list in Hkv. apply Hdom.
    by eexists.
  - exists d'. split; [done|]. intros cat. destruct (Hspec cat) as [Hhit Hmiss].
    unfold cat_has. destruct (categories !! cat) as [m|] eqn:Ecat.
    + case_bool_decide as Hin.
      * apply Hhit. exists m. split; [|done]. by apply elem_of_map_to_list.
      * rewrite Hmiss.
        -- destruct (d !! cat); simpl; by rewrite ?app_nil_r.
        -- intros m' Hm'. apply elem_of_map_to_list in Hm'. congruence.
    + rewrite Hmiss.
      * destruct (d !! cat); simpl; by rewrite ?app_nil_r.
      * intros m' Hm'. apply elem_of_map_to_list in Hm'. congruence.
Qed.

(** What the loop over the subcategories of one subject appends. *)
Lemma for_subcats_spec subcats x a :
  (∀ sc, sc ∈ subcats → is_Some (subcat_cors a !! sc)) →
  (∀ cat, is_Some (categories !! cat) → is_Some (cat_cors a !! cat)) →
  ∃ a',
    for_subcats' subcats x a = Ok a'
    ∧ all_cors a' = all_cors a
    ∧ (∀ sc, subcat_cors a' !! sc
             = (fun l => (l ++ replicate
                                 (length (filter (fun s => s = sc) subcats)) x)%list)
                 <$> subcat_cors a !! sc)
    ∧ (∀ cat, cat_cors a' !! cat
              = (fun l => (l ++ replicate
                                  (length (filter (fun s => cat_has' cat s = true)
                                             subcats)) x)%list)
                  <$> cat_cors a !! cat).
Proof.
  revert a. induction subcats as [|subcat subcats IH]; intros a Hsub Hcat.
  - exists a. split; [done|]. split; [done|].
    split; intros key; simpl; destruct (_ !! key); simpl; by rewrite ?app_nil_r.
  - destruct (Hsub subcat) as [l Hl]; [apply elem_of_cons; by left|].
    destruct (for_keys_categories subcat x (cat_cors a) Hcat) as (cc & Hcc & Hlook).
    cbn [for_subcats]. rewrite (append_at_ok _ _ _ _ Hl), Hcc. cbn [obind].
    destruct (IH {| all_cors := all_cors a;
                    subcat_cors := <[subcat := (l ++ [x])%list]> (subcat_cors a);
                    cat_cors := cc |}) as (a' & -> & Hall & Hsc & Hc).
    { intros sc Hin. simpl. destruct (decide (subcat = sc)) as [->|Hne].
      - rewrite lookup_insert_eq. by eexists.
      - rewrite lookup_insert_ne by done. apply Hsub, elem_of_cons. by right. }
    { intros cat Hin. simpl. rewrite Hlook.
      destruct (Hcat cat Hin) as [l' ->]. by eexists. }
    exists a'. split; [done|]. split; [done|]. simpl in *. split.
    + intros sc. rewrite Hsc, filter_cons.
      destruct (decide (subcat = sc)) as [->|Hne].
      * rewrite lookup_insert_eq, Hl. simpl. by rewrite <- app_assoc.
      * by rewrite lookup_insert_ne.
    + intros cat. rewrite Hc, Hlook, filter_cons.
      destruct (cat_cors a !! cat) as [l'|]; [|done]. simpl.
      destruct (decide (cat_has' cat subcat = true)) as [->|Hno].
      * simpl. by rewrite <- app_assoc.
      * destruct (cat_has' cat subcat); [done|]. by rewrite app_nil_r.
Qed.

Lemma recorded_cons hits s (x : Z * Z) results :
  recorded hits ((s, x) :: results)
  = (replicate (hits s) x ++ recorded hits results)%list.
Proof. reflexivity. Qed.

(** What the loop over the subjects leaves in the three accumulators. *)
Lemma for_subjects_spec results a :
  Forall (fun r => is_Some (subcategories !! r.1)) results →
  (∀ s subcats sc, subcategories !! s = Some subcats → sc ∈ subcats →
     is_Some (subcat_cors a !! sc)) →
  (∀ cat, is_Some (categories !! cat) → is_Some (cat_cors a !! cat)) →
  ∃ a',
    for_subjects' results a = Ok a'
    ∧ all_cors a' = (all_cors a ++ map snd results)%list
    ∧ (∀ sc, subcat_cors a' !! sc
             = (fun l => (l ++ recorded (subcat_hits subcategories sc) results)%list)
                 <$> subcat_cors a !! sc)
    ∧ (∀ cat, cat_cors a' !! cat
              = (fun l => (l ++ recorded (cat_hits subcategories categories cat)
                                  results)%list)
                  <$> cat_cors a !! cat).
Proof.
  intros Hres. revert a.
  induction Hres as [|[s x] results [subcats Hs] _ IH]; intros a Hsub Hcat.
  - exists a. split; [done|]. simpl. rewrite app_nil_r. split; [done|].
    split; intros key; destruct (_ !! key); simpl; by rewrite ?app_nil_r.
  - simpl in Hs.
    destruct (for_subcats_spec subcats x a) as (a1 & Ha1 & Hall1 & Hsc1 & Hc1);
      [intros sc Hin; by eapply Hsub|done|].
    cbn [for_subjects]. unfold record_subject. rewrite Hs. cbn [of_option obind].
    rewrite Ha1. cbn [obind].
    destruct (IH {| all_cors := (all_cors a1 ++ [x])%list;
                    subcat_cors := subcat_cors a1;
                    cat_cors := cat_cors a1 |}) as (a' & -> & Hall & Hsc & Hc).
    { intros s' subcats' sc Hs' Hin. simpl. rewrite Hsc1.
      destruct (Hsub s' subcats' sc Hs' Hin) as [l ->]. by eexists. }
    { intros cat Hin. simpl. rewrite Hc1.
      destruct (Hcat cat Hin) as [l ->]. by eexists. }
    exists a'. split; [done|]. simpl in *. split.
    { rewrite Hall, Hall1, <- app_assoc. done. }
    split.
    + intros sc. rewrite Hsc, Hsc1, recorded_cons.
      assert (subcat_hits subcategories sc s
              = length (filter (fun s0 => s0 = sc) subcats)) as ->.
      { unfold subcat_hits, subcats_of. by rewrite Hs. }
      destruct (subcat_cors a !! sc); [|done]. simpl. by rewrite <- app_assoc.
    + intros cat. rewrite Hc, Hc1, recorded_cons.
      assert (cat_hits subcategories categories cat s
              = length (filter (fun s0 => cat_has' cat s0 = true) subcats)) as ->.
      { unfold cat_hits, subcats_of. by rewrite Hs. }
      destruct (cat_cors a !! cat); [|done]. simpl. by rewrite <- app_assoc.
Qed.

(** The accumulators of lines 46-49. *)
Lemma init_subcat_cors_lookup sc :
  sc ∈ all_subcats subcategories →
  init_subcat_cors subcategories !! sc = Some [].
Proof.
  unfold init_subcat_cors. generalize (all_subcats subcategories).
  intros l. induction l as [|sc' l IH]; [by intros ?%elem_of_nil|].
  intros Hin. simpl. destruct (decide (sc' = sc)) as [->|Hne].
  - by rewrite lookup_insert_eq.
  - rewrite lookup_insert_ne by done. apply IH.
    apply elem_of_cons in Hin as [->|Hin]; done.
Qed.

Lemma elem_of_all_subcats s subcats sc :
  subcategories !! s = Some subcats → sc ∈ subcats →
  sc ∈ all_subcats subcategories.
Proof.
  intros Hs Hin. unfold all_subcats.
  apply elem_of_map_to_list in Hs. revert Hs.
  generalize (map_to_list subcategories). intros l.
  induction l as [|kv l IH]; [by intros ?%elem_of_nil|].
  intros [<-|Hl]%elem_of_cons; simpl; apply elem_of_app; [by left|].
  right. by apply IH.
Qed.


Lemma in_subcat_hits sc s :
  in_subcat subcategories sc s = true ↔ (0 < subcat_hits subcategories sc s)%nat.
Proof.
  unfold in_subcat, subcat_hits. rewrite bool_decide_eq_true.
  generalize (subcats_of' s). intros l. induction l as [|sc' l IH].
  - simpl. split; [by intros ?%elem_of_nil|lia].
  - rewrite filter_cons, elem_of_cons. destruct (decide (sc' = sc)) as [->|Hne].
    + simpl. split; [lia|by left].
    + rewrite <- IH. split; [by intros [?|?]|by right].
Qed.

Lemma in_cat_hits cat s :
  in_cat subcategories categories cat s = true
  ↔ (0 < cat_hits subcategories categories cat s)%nat.
Proof.
  unfold in_cat, cat_hits.
  generalize (subcats_of' s). intros l. induction l as [|sc l IH].
  - simpl. split; [done|lia].
  - rewrite filter_cons. simpl. rewrite orb_true_iff, IH.
    destruct (decide (cat_has' cat sc = true)) as [->|Hne].
    + simpl. split; [lia|by left].
    + split; [by intros [?|?]|by right].
Qed.

Lemma accuracy_ratio (l : Cors) :
  l ≠ [] → sum_totals l ≠ 0%Z → accuracy l = Ok (ratio l).
Proof.
  intros Hl Hsum. unfold accuracy. destruct l; [done|].
  by destruct (Z.eqb_spec (sum_totals (p :: l)) 0).
Qed.




End AggregatorFacts.


(* ===================================================================== *)
(** * More on the prompt builder *)
(* ===================================================================== *)

Section EntriesFacts.

Variable format_example : DataFrame → nat → bool → string.
Variable gen_prompt : DataFrame → string → Z → string.
Variable tokenizer : Tokenizer.
Variable subject : string.
Variable ntrain : Z.
Variable dev_df test_df : DataFrame.

Local Abbreviation over := (over_budget tokenizer).
Local Abbreviation prompt_at' := (prompt_at gen_prompt subject dev_df).
Local Abbreviation zero_shot' := (zero_shot format_example gen_prompt subject dev_df).
Local Abbreviation shrink' := (shrink gen_prompt tokenizer subject dev_df).
Local Abbreviation shrink_val' := (shrink_val gen_prompt tokenizer subject dev_df).
Local Abbreviation for_test' :=
  (for_test format_example gen_prompt tokenizer subject ntrain dev_df test_df).
Local Abbreviation for_val' :=
  (for_val format_example gen_prompt tokenizer subject dev_df).
Local Abbreviation prepare_data' :=
  (prepare_data format_example gen_prompt tokenizer subject ntrain dev_df test_df).
Local Abbreviation test_entry' :=
  (test_entry format_example gen_prompt tokenizer subject ntrain dev_df test_df).
Local Abbreviation val_entry' :=
  (val_entry format_example gen_prompt tokenizer subject dev_df).

(** The search stops at the first count, from the top, whose prompt is
    within the budget. *)
Lemma shrink_first_fit fuel prompt_end k k' prompt' :
  shrink' fuel prompt_end k (prompt_at' prompt_end k) = Ok (k', prompt') →
  prompt' = prompt_at' prompt_end k'
  ∧ (k' ≤ k)%Z
  ∧ over prompt' = false
  ∧ ∀ j, (k' < j ≤ k)%Z → over (prompt_at' prompt_end j) = true.
Proof.
  revert k. induction fuel as [|fuel IH]; intros k; simpl.
  - destruct (over (prompt_at' prompt_end k)) eqn:E; [done|].
    intros [= <- <-]. repeat split; try done; lia.
  - destruct (over (prompt_at' prompt_end k)) eqn:E.
    + intros Hrun. apply IH in Hrun as (-> & Hle & Hfit & Hover).
      repeat split; try done; [lia|]. intros j Hj.
      destruct (decide (j = k)) as [->|Hne]; [done|]. apply Hover. lia.
    + intros [= <- <-]. repeat split; try done; lia.
Qed.

(** The validation loop returns only the prompt it was given. *)
Lemma shrink_val_ok fuel prompt_end k k' prompt' :
  shrink_val' fuel prompt_end k (gen_prompt dev_df subject 0 ++ prompt_end)
  = Ok (k', prompt') →
  k' = k ∧ prompt' = gen_prompt dev_df subject 0 ++ prompt_end
  ∧ over prompt' = false.
Proof.
  destruct (over (gen_prompt dev_df subject 0 ++ prompt_end)) eqn:E.
  - destruct k as [kv|].
    + by rewrite (shrink_val_diverges gen_prompt tokenizer subject dev_df fuel _ kv E).
    + destruct fuel; simpl; by rewrite E.
  - rewrite (shrink_val_fits gen_prompt tokenizer subject dev_df fuel _ k _ E).
    by intros [= <- <-].
Qed.

Lemma for_test_entries fuel idx k self k' self' :
  for_test' fuel idx k self = (Ok k', self') →
  ∃ entries,
    testset self' = (testset self ++ entries)%list
    ∧ valset self' = valset self
    ∧ Forall2 test_entry' idx entries.
Proof.
  revert k self. induction idx as [|i idx IH]; intros k self.
  - simpl. unfold ret. intros [= <- <-]. exists []. rewrite app_nil_r.
    repeat split; constructor.
  - rewrite for_test_cons. unfold test_body. unfold_method.
    fold (prompt_at' (format_example test_df i false) ntrain).
    destruct (shrink' fuel _ ntrain _) as [[k1 p1]| |] eqn:Es; try done.
    apply shrink_first_fit in Es as (-> & Hle & Hfit & Hover).
    unfold iloc_last. destruct (test_df !! i) as [row|] eqn:Erow; simpl; [|done].
    intros Hrun. apply IH in Hrun as (entries & Hts & Hvs & Hall).
    simpl in Hts, Hvs.
    exists ({| input := prompt_at' (format_example test_df i false) k1;
               output := gold row |} :: entries).
    rewrite Hts, <- app_assoc. split; [done|]. split; [done|].
    constructor; [|done]. exists row, k1. by repeat split.
Qed.

Lemma for_val_entries fuel idx k self k' self' :
  for_val' fuel idx k self = (Ok k', self') →
  ∃ entries,
    valset self' = (valset self ++ entries)%list
    ∧ testset self' = testset self
    ∧ Forall2 val_entry' idx entries.
Proof.
  revert k self. induction idx as [|i idx IH]; intros k self.
  - simpl. unfold ret. intros [= <- <-]. exists []. rewrite app_nil_r.
    repeat split; constructor.
  - rewrite for_val_cons. unfold val_body. unfold_method.
    destruct (shrink_val' fuel _ k _) as [[k1 p1]| |] eqn:Es; try done.
    apply shrink_val_ok in Es as (-> & -> & Hfit).
    unfold iloc_last. destruct (dev_df !! i) as [row|] eqn:Erow; simpl; [|done].
    intros Hrun. apply IH in Hrun as (entries & Hvs & Hts & Hall).
    simpl in Hts, Hvs.
    exists ({| input := zero_shot' i; output := gold row |} :: entries).
    rewrite Hvs, <- app_assoc. split; [done|]. split; [done|].
    constructor; [|done]. exists row. by repeat split.
Qed.

Lemma Forall2_index {A} (P : nat → A → Prop) (df : DataFrame) entries :
  Forall2 P (index df) entries →
  length entries = length df
  ∧ ∀ i, (i < length df)%nat → ∃ e, entries !! i = Some e ∧ P i e.
Proof.
  intros Hall. split.
  - apply Forall2_length in Hall. unfold index in Hall.
    by rewrite length_seq in Hall.
  - intros i Hi.
    destruct (Forall2_lookup_l _ _ _ i i Hall) as (e & He & HP); [|by exists e].
    unfold index. by apply lookup_seq_lt.
Qed.

(** What a returned [prepare_data] has built. *)
Lemma prepare_data_entries fuel self self' :
  prepare_data' None fuel self = (Ok tt, self') →
  Forall2 test_entry' (index test_df) (testset self')
  ∧ Forall2 val_entry' (index dev_df) (valset self').
Proof.
  rewrite (prepare_data_none format_example gen_prompt tokenizer subject ntrain
             dev_df test_df).
  destruct (for_test' fuel (index test_df) None _) as [[k| |] self1] eqn:Et;
    try done.
  destruct (for_val' fuel (index dev_df) k self1) as [[k'| |] self2] eqn:Ev;
    try done.
  intros [= <-].
  apply for_test_entries in Et as (tes & Hts & Hvs & Htest).
  apply for_val_entries in Ev as (ves & Hvs' & Hts' & Hval).
  simpl in *. rewrite Hts', Hts, Hvs', Hvs. simpl. done.
Qed.

(** X1. Every prompt of a returned [prepare_data] is within the budget:
    each entry of the test set and of the validation set tokenizes to at
    most 2048 tokens. *)
Theorem prepared_prompts_fit fuel self self' :
  prepare_data format_example gen_prompt tokenizer subject ntrain dev_df
    test_df None fuel self = (Ok tt, self') →
  Forall (fun e => (prompt_len tokenizer (input e) ≤ 2048)%Z) (testset self')
  ∧ Forall (fun e => (prompt_len tokenizer (input e) ≤ 2048)%Z) (valset self').
Proof.
  intros [Htest Hval]%prepare_data_entries. split.
  - eapply Forall2_Forall_r; [exact Htest|]. apply Forall_forall.
    intros i _ e (row & k & _ & _ & _ & _ & Hfit & _).
    unfold over_budget in Hfit. apply Z.ltb_ge in Hfit. done.
  - eapply Forall2_Forall_r; [exact Hval|]. apply Forall_forall.
    intros i _ e (row & _ & _ & Hfit).
    unfold over_budget in Hfit. apply Z.ltb_ge in Hfit. done.
Qed.

(** X2. A returned [prepare_data] has one test entry per test row, in the
    order of the rows. The entry of row [i] carries the gold letter of the
    row, and its prompt is the one of the greatest few-shot count [k], from
    [ntrain] down, whose prompt is within the budget: every greater count
    up to [ntrain] is over it. *)
Theorem test_entries_first_fit fuel self self' :
  prepare_data format_example gen_prompt tokenizer subject ntrain dev_df
    test_df None fuel self = (Ok tt, self') →
  length (testset self') = length test_df
  ∧ ∀ i, (i < length test_df)%nat →
      ∃ e, testset self' !! i = Some e
           ∧ test_entry format_example gen_prompt tokenizer subject ntrain
               dev_df test_df i e.
Proof.
  intros [Htest _]%prepare_data_entries. by apply Forall2_index.
Qed.

(** X3. A returned [prepare_data] has one validation entry per development
    row, in the order of the rows: the zero-shot prompt of the row and its
    gold letter, whatever few-shot count was asked for. *)
Theorem val_entries_zero_shot fuel self self' :
  prepare_data format_example gen_prompt tokenizer subject ntrain dev_df
    test_df None fuel self = (Ok tt, self') →
  length (valset self') = length dev_df
  ∧ ∀ i row, dev_df !! i = Some row →
      valset self' !! i
      = Some {| input := zero_shot format_example gen_prompt subject dev_df i;
                output := gold row |}.
Proof.
  intros [_ Hval]%prepare_data_entries.
  apply Forall2_index in Hval as [Hlen Hval]. split; [done|].
  intros i row Hrow.
  destruct (Hval i) as (e & He & row' & Hrow' & -> & _).
  { by eapply lookup_lt_Some. }
  rewrite He. congruence.
Qed.

End EntriesFacts.

(** Two few-shot examples are asked for and none fits beside the question
    of 600 characters. *)
Lemma prepared_prompts_fit_witness :
  Forall (fun e => (prompt_len Demo.char_tokenizer (input e) ≤ 2048)%Z)
    (testset Demo.shrunk)
  ∧ Forall (fun e => (prompt_len Demo.char_tokenizer (input e) ≤ 2048)%Z)
      (valset Demo.shrunk).
Proof.
  apply (prepared_prompts_fit Demo.format_example Demo.gen_prompt
           Demo.char_tokenizer Demo.subject 2 Demo.dev_big Demo.test_mid 5%nat
           {| testset := []; valset := [] |} Demo.shrunk).
  vm_compute. reflexivity.
Defined.

Lemma test_entries_first_fit_witness :
  length (testset Demo.shrunk) = 1%nat
  ∧ ∀ i, (i < 1)%nat →
      ∃ e, testset Demo.shrunk !! i = Some e
           ∧ test_entry Demo.format_example Demo.gen_prompt Demo.char_tokenizer
               Demo.subject 2 Demo.dev_big Demo.test_mid i e.
Proof.
  apply (test_entries_first_fit Demo.format_example Demo.gen_prompt
           Demo.char_tokenizer Demo.subject 2 Demo.dev_big Demo.test_mid 5%nat
           {| testset := []; valset := [] |} Demo.shrunk).
  vm_compute. reflexivity.
Defined.

Lemma val_entries_zero_shot_witness :
  length (valset Demo.shrunk) = 2%nat
  ∧ ∀ i row, Demo.dev_big !! i = Some row →
      valset Demo.shrunk !! i
      = Some {| input := zero_shot Demo.format_example Demo.gen_prompt
                           Demo.subject Demo.dev_big i;
                output := gold row |}.
Proof.
  apply (val_entries_zero_shot Demo.format_example Demo.gen_prompt
           Demo.char_tokenizer Demo.subject 2 Demo.dev_big Demo.test_mid 5%nat
           {| testset := []; valset := [] |} Demo.shrunk).
  vm_compute. reflexivity.
Defined.

(* ===================================================================== *)
(** * More on the scorer *)
(* ===================================================================== *)

Section TensorMore.

Context {F : Type} `{FloatOps F}.

Lemma argmax_scan_lt (mp : F) max_ind i v :
  (max_ind < i)%nat → (argmax_scan mp max_ind i v < i + length v)%nat.
Proof.
  revert mp max_ind i. induction v as [|x v IH]; intros mp max_ind i Hlt; simpl.
  - lia.
  - destruct (fleb x mp).
    + specialize (IH mp max_ind (S i)). lia.
    + destruct (fisnan x); [lia|]. specialize (IH x i (S i)). lia.
Qed.

Lemma argmax_lt (v : list F) n : argmax v = Ok n → (n < length v)%nat.
Proof.
  destruct v as [|x v]; simpl; [done|]. intros [= <-].
  destruct (fisnan x); [lia|].
  pose proof (argmax_scan_lt x 0 1 v). lia.
Qed.

Lemma tensor_get_index_error {A} (t : list A) i : index_error_only (tensor_get t i).
Proof.
  unfold tensor_get. repeat case_match; simpl; try done;
    by destruct (t !! _).
Qed.

End TensorMore.

Section ScorerMore.

Context {F : Type} `{FloatOps F}.

Variable tokenizer : Tokenizer.
Variable model_name : string.

Local Abbreviation gather' := (gather tokenizer).
Local Abbreviation predict' := (predict tokenizer model_name).

Lemma py_first_index_error {A} (l : list A) : index_error_only (py_first l).
Proof. unfold py_first. by destruct (head l). Qed.

Lemma py_last_index_error {A} (l : list A) : index_error_only (py_last l).
Proof. unfold py_last. by destruct (last l). Qed.

Lemma gather_index_error pick (logit : list F) :
  (∀ l, index_error_only (pick l)) → index_error_only (gather' pick logit).
Proof.
  intros Hpick. rewrite gather_letters. unfold letters.
  assert (∀ s, index_error_only
                 (obind (pick (input_ids tokenizer s)) (tensor_get logit))) as Hs.
  { intros s. pose proof (Hpick (input_ids tokenizer s)) as Hp.
    destruct (pick _) as [id| |]; simpl in *; try done.
    apply tensor_get_index_error. }
  simpl. pose proof (Hs "A") as HA. pose proof (Hs "B") as HB.
  pose proof (Hs "C") as HC. pose proof (Hs "D") as HD.
  destruct (obind (pick (input_ids tokenizer "A")) _); simpl in *; try done.
  destruct (obind (pick (input_ids tokenizer "B")) _); simpl in *; try done.
  destruct (obind (pick (input_ids tokenizer "C")) _); simpl in *; try done.
  destruct (obind (pick (input_ids tokenizer "D")) _); simpl in *; done.
Qed.

(** A prediction is one of the four letters, and the only exception of
    [predict] is [IndexError]. *)
Lemma predict_outcome (logit : list F) :
  match predict' logit with
  | Ok pred => pred ∈ letters
  | Raise e => e = IndexError
  | OutOfFuel => False
  end.
Proof.
  assert (∀ v : list F, length v = 4%nat →
            ∃ pred, obind (argmax (softmax v)) letter = Ok pred ∧ pred ∈ letters)
    as Hletter.
  { intros v Hv. destruct (argmax (softmax v)) as [n| |] eqn:En.
    - apply argmax_lt in En. unfold softmax in En. rewrite !length_map, Hv in En.
      destruct n as [|[|[|[|n]]]]; [..|lia]; simpl; eexists; (split; [done|]);
        unfold letters; set_solver.
    - unfold softmax in En. destruct v; [done|]. done.
    - unfold softmax in En. destruct v; [done|]. done. }
  unfold predict.
  pose proof (gather_index_error py_first logit (@py_first_index_error Z)) as H1.
  pose proof (gather_index_error py_last logit (@py_last_index_error Z)) as H2.
  destruct (gather' py_first logit) as [v1| |] eqn:E1; simpl in *; try done.
  destruct (alpaca model_name).
  - destruct (gather' py_last logit) as [v2| |] eqn:E2; simpl in *; try done.
    apply gather_length in E2. destruct (Hletter v2 E2) as (pred & -> & Hp). done.
  - simpl. apply gather_length in E1. destruct (Hletter v1 E1) as (pred & -> & Hp).
    done.
Qed.

(** The loop over the rows touches [correct] only; it returns the
    predictions of all rows, or stops at the first row without a label or
    without a prediction. *)
Lemma score_rows_outcome (rows : list (list F)) i labels preds0 self o self' :
  score_rows tokenizer model_name rows i labels preds0 self = (o, self') →
  total self' = total self
  ∧ all_preds self' = all_preds self
  ∧ all_golds self' = all_golds self
  ∧ match o with
    | Ok preds =>
        ∃ new, preds = (preds0 ++ new)%list
               ∧ length new = length rows
               ∧ Forall (fun p => p ∈ letters) new
               ∧ (rows = [] ∨ i + length rows ≤ length labels)%nat
    | Raise e => e = IndexError
    | OutOfFuel => False
    end.
Proof.
  revert i preds0 self.
  induction rows as [|row rows IH]; intros i preds0 self.
  - simpl. unfold ret. intros [= <- <-]. repeat split; try done.
    exists []. rewrite app_nil_r. repeat split; [constructor|by left].
  - rewrite score_rows_cons.
    destruct (labels !! i) as [label|] eqn:El; [|by intros [= <- <-]].
    pose proof (predict_outcome row) as Hp.
    destruct (predict' row) as [pred| |]; try done; [|by intros [= <- <-]].
    intros Hrun. apply IH in Hrun as (Ht & Hps & Hgs & Ho). simpl in *.
    repeat split; try done.
    destruct o as [preds| |]; try done.
    destruct Ho as (new & -> & Hlen & Hall & Hbound).
    exists (pred :: new). rewrite <- app_assoc. simpl.
    split; [done|]. split; [by rewrite Hlen|]. split; [by constructor|].
    right. apply lookup_lt_Some in El. destruct Hbound as [->|Hb]; simpl; lia.
Qed.

(** What [update] does to the metric, by outcome. *)
Lemma update_outcome (logits : list (list (list F))) labels self o self' :
  update tokenizer model_name logits labels self = (o, self') →
  total self' = (total self + Z.of_nat (length logits))%Z
  ∧ (correct self ≤ correct self' ≤ correct self + Z.of_nat (length logits))%Z
  ∧ match o with
    | Ok _ =>
        (length logits ≤ length labels)%nat
        ∧ all_golds self' = (all_golds self ++ batch_decode tokenizer labels)%list
        ∧ ∃ preds, all_preds self' = (all_preds self ++ preds)%list
                   ∧ length preds = length logits
                   ∧ Forall (fun p => p ∈ letters) preds
    | Raise e =>
        e = IndexError
        ∧ all_preds self' = all_preds self
        ∧ all_golds self' = all_golds self
    | OutOfFuel => False
    end.
Proof.
  unfold update. unfold_method.
  destruct (select_position model_name logits) as [rows| |] eqn:Er.
  - pose proof (omap_length _ _ _ Er) as Hlr.
    destruct (score_rows _ _ _ _ _ _ _) as [o1 self1] eqn:Es.
    pose proof (score_rows_bound _ _ _ _ _ _ _ _ _ Es) as [_ Hc].
    apply score_rows_outcome in Es as (Ht & Hps & Hgs & Ho). simpl in *.
    destruct o1 as [preds| |]; try done.
    + intros [= <- <-]. simpl. rewrite Ht, Hps, Hgs.
      destruct Ho as (new & -> & Hlen & Hall & Hb). simpl.
      split; [done|]. split; [lia|]. split.
      { unfold batch_decode in Hb. rewrite length_map in Hb.
        destruct Hb as [->|Hb]; simpl in *; lia. }
      split; [done|]. exists new. split; [done|]. split; [lia|done].
    + intros [= <- <-]. rewrite Ht, Hps, Hgs. split; [done|]. split; [lia|]. done.
  - intros [= <- <-]. simpl. split; [done|]. split; [lia|].
    split; [|done]. revert Er. unfold select_position.
    generalize logits as l. clear. intros l. revert e.
    induction l as [|seq l IH]; intros e; simpl; [done|].
    destruct (alpaca model_name).
    + pose proof (py_last_index_error seq) as Hs.
      destruct (py_last seq); simpl in *; [|congruence|done].
      destruct (omap _ l) eqn:El; simpl; try done. intros [= <-]. by apply IH.
    + pose proof (py_first_index_error seq) as Hs.
      destruct (py_first seq); simpl in *; [|congruence|done].
      destruct (omap _ l) eqn:El; simpl; try done. intros [= <-]. by apply IH.
  - exfalso. revert Er. unfold select_position. generalize logits as l. clear.
    intros l. induction l as [|seq l IH]; simpl; [done|].
    destruct (alpaca model_name).
    + pose proof (py_last_index_error seq) as Hs.
      destruct (py_last seq); simpl in *; try done.
      destruct (omap _ l) eqn:El; simpl; try done.
    + pose proof (py_first_index_error seq) as Hs.
      destruct (py_first seq); simpl in *; try done.
      destruct (omap _ l) eqn:El; simpl; try done.
Qed.

Lemma gather_agree pick (l1 l2 : list F) :
  (∀ s id, s ∈ letters → pick (input_ids tokenizer s) = Ok id →
     tensor_get l1 id = tensor_get l2 id) →
  gather' pick l1 = gather' pick l2.
Proof.
  intros Hagree. rewrite !gather_letters.
  assert (∀ s, s ∈ letters →
            obind (pick (input_ids tokenizer s)) (tensor_get l1)
            = obind (pick (input_ids tokenizer s)) (tensor_get l2)) as Hs.
  { intros s Hin. destruct (pick (input_ids tokenizer s)) as [id| |] eqn:E;
      simpl; try done. by apply (Hagree s id). }
  unfold letters in *. simpl.
  rewrite (Hs "A"), (Hs "B"), (Hs "C"), (Hs "D"); [done|set_solver..].
Qed.

(** Where the loop over the rows stops when it raises: at the first row
    without a label or without a prediction, with the matches of the rows
    before it counted. *)
Lemma score_rows_failure (rows : list (list F)) i labels preds0 self e self' :
  (i ≤ length labels)%nat →
  score_rows tokenizer model_name rows i labels preds0 self = (Raise e, self') →
  ∃ k preds,
    (k < length rows)%nat
    ∧ (i + k ≤ length labels)%nat
    ∧ omap predict' (take k rows) = Ok preds
    ∧ (labels !! (i + k)%nat = None
       ∨ ∃ row, rows !! k = Some row ∧ is_ok (predict' row) = false)
    ∧ correct self'
      = (correct self + matches preds (take k (drop i labels)))%Z.
Proof.
  revert i preds0 self.
  induction rows as [|row rows IH]; intros i preds0 self Hi.
  - simpl. unfold ret. intros [=].
  - rewrite score_rows_cons.
    destruct (labels !! i) as [label|] eqn:El.
    + destruct (predict' row) as [pred| |] eqn:Ep.
      * intros Hrun.
        apply IH in Hrun as (k & preds & Hk & Hle & Hps & Hstop & Hc);
          [|apply lookup_lt_Some in El; lia].
        exists (S k), (pred :: preds). simpl in Hc.
        split; [simpl; lia|]. split; [lia|]. split.
        { cbn [take omap]. by rewrite Ep, Hps. }
        split.
        { rewrite Nat.add_succ_r. done. }
        rewrite Hc, (drop_S labels label i El). cbn [take].
        unfold matches. simpl. lia.
      * intros [= <- <-]. exists 0%nat, []. simpl.
        split; [lia|]. split; [apply lookup_lt_Some in El; lia|].
        split; [done|]. split.
        { right. exists row. by rewrite Ep. }
        unfold matches. simpl. lia.
      * intros [=].
    + intros [= <- <-]. exists 0%nat, []. simpl.
      split; [lia|]. split; [lia|].
      split; [done|]. split; [left; by rewrite Nat.add_0_r|].
      unfold matches. simpl. lia.
Qed.

(** X4. An [update] that raises has raised [IndexError]. It has already
    added the whole batch to [total], and it has recorded none of the
    predictions and none of the gold labels of the batch. If the position
    of a row could not be selected, [correct] is as before. Otherwise the
    loop stopped at a row [k], the first without a label or without a
    prediction, and [correct] has grown by exactly the matches of the [k]
    rows before it with their labels. *)
Theorem update_failure (logits : list (list (list F))) labels self e self' :
  update tokenizer model_name logits labels self = (Raise e, self') →
  e = IndexError
  ∧ total self' = (total self + Z.of_nat (length logits))%Z
  ∧ (correct self ≤ correct self' ≤ correct self + Z.of_nat (length logits))%Z
  ∧ all_preds self' = all_preds self
  ∧ all_golds self' = all_golds self
  ∧ ((is_ok (select_position model_name logits) = false
      ∧ correct self' = correct self)
     ∨ ∃ rows k preds,
         select_position model_name logits = Ok rows
         ∧ (k < length rows)%nat
         ∧ (k ≤ length labels)%nat
         ∧ omap (predict tokenizer model_name) (take k rows) = Ok preds
         ∧ (k = length labels
            ∨ ∃ row, rows !! k = Some row
                     ∧ is_ok (predict tokenizer model_name row) = false)
         ∧ correct self'
           = (correct self
              + matches preds (take k (batch_decode tokenizer labels)))%Z).
Proof.
  intros Hrun.
  pose proof (update_outcome _ _ _ _ _ Hrun) as (Ht & Hc & He & Hp & Hg).
  do 5 (split; [done|]).
  revert Hrun. unfold update. unfold_method.
  destruct (select_position model_name logits) as [rows| |] eqn:Er.
  - destruct (score_rows _ _ _ _ _ _ _) as [o1 self1] eqn:Es.
    destruct o1 as [preds| |]; try done. intros [= <- <-].
    apply score_rows_failure in Es
      as (k & preds & Hk & Hle & Hps & Hstop & Hcor); [|lia].
    right. exists rows, k, preds. simpl in *.
    unfold batch_decode in *. rewrite length_map in Hle.
    split; [done|]. split; [done|]. split; [done|]. split; [done|].
    split; [|by rewrite Hcor, drop_0].
    destruct Hstop as [Hnone|Hrow]; [left|by right].
    apply lookup_ge_None in Hnone. rewrite length_map in Hnone. lia.
  - intros [= <- <-]. left. by simpl.
  - done.
Qed.

(** X5. An [update] that returns was given at least one label row per
    logits row. It has appended one letter of "A", "B", "C", "D" per logits
    row to [all_preds] and every decoded label to [all_golds], so the two
    lists stay of equal length exactly when there are as many label rows as
    logits rows. *)
Theorem update_return (logits : list (list (list F))) labels self self' :
  update tokenizer model_name logits labels self = (Ok tt, self') →
  (length logits ≤ length labels)%nat
  ∧ total self' = (total self + Z.of_nat (length logits))%Z
  ∧ all_golds self' = (all_golds self ++ batch_decode tokenizer labels)%list
  ∧ (∃ preds, all_preds self' = (all_preds self ++ preds)%list
              ∧ length preds = length logits
              ∧ Forall (fun p => p ∈ letters) preds)
  ∧ (length (all_preds self) = length (all_golds self) →
     (length (all_preds self') = length (all_golds self')
      ↔ length labels = length logits)).
Proof.
  intros Hrun. apply update_outcome in Hrun as (Ht & Hc & Hle & Hg & Hp).
  split; [done|]. split; [done|]. split; [done|]. split; [done|].
  destruct Hp as (preds & -> & Hlen & _). rewrite Hg. intros Hsame.
  rewrite !length_app. unfold batch_decode. rewrite length_map. lia.
Qed.

(** X6. The prediction looks at the logit vector only at the first and at
    the last sub-token id of "A", "B", "C" and "D": two vectors that agree
    there, in value or in being out of range, get the same prediction or
    the same exception. *)
Theorem predict_reads_letter_ids (l1 l2 : list F) :
  (∀ s id, s ∈ letters →
     py_first (input_ids tokenizer s) = Ok id
     ∨ py_last (input_ids tokenizer s) = Ok id →
     tensor_get l1 id = tensor_get l2 id) →
  predict' l1 = predict' l2.
Proof.
  intros Hagree. unfold predict.
  assert (gather' py_first l1 = gather' py_first l2) as ->.
  { apply gather_agree. intros s id Hs Hid. apply (Hagree s id Hs). by left. }
  assert (gather' py_last l1 = gather' py_last l2) as ->.
  { apply gather_agree. intros s id Hs Hid. apply (Hagree s id Hs). by right. }
  done.
Qed.

End ScorerMore.

(** The label row of the third example is missing: the first two rows are
    scored, both predictions match, then the lookup of the label raises. *)
Lemma update_failure_witness :
  update Demo.char_tokenizer Demo.standard_name Demo.logits Demo.short_labels
    Demo.new_metric
  = (Raise IndexError,
     {| total := 3; correct := 2; all_preds := []; all_golds := [] |})
  ∧ IndexError = IndexError
  ∧ total {| total := 3; correct := 2; all_preds := []; all_golds := [] |}
    = (total Demo.new_metric + Z.of_nat (length Demo.logits))%Z
  ∧ ∃ k preds,
      k = length Demo.short_labels
      ∧ omap (predict Demo.char_tokenizer Demo.standard_name)
          (take k Demo.rows) = Ok preds
      ∧ 2%Z = (correct Demo.new_metric
               + matches preds
                   (take k (batch_decode Demo.char_tokenizer
                              Demo.short_labels)))%Z.
Proof.
  assert (update Demo.char_tokenizer Demo.standard_name Demo.logits
            Demo.short_labels Demo.new_metric
          = (Raise IndexError,
             {| total := 3; correct := 2; all_preds := []; all_golds := [] |}))
    as Hrun by (vm_compute; reflexivity).
  split; [exact Hrun|].
  destruct (update_failure Demo.char_tokenizer Demo.standard_name Demo.logits
              Demo.short_labels Demo.new_metric IndexError _ Hrun)
    as (He & Ht & _ & _ & _ & Hexact).
  split; [exact He|]. split; [exact Ht|].
  destruct Hexact as [[Hsel _]|(rows & k & preds & Hrows & Hk & _ & Hps
                                 & Hstop & Hcor)].
  { vm_compute in Hsel. discriminate Hsel. }
  assert (rows = Demo.rows) as ->.
  { unfold Demo.rows. by rewrite Hrows. }
  exists k, preds. split; [|split; [exact Hps|exact Hcor]].
  destruct Hstop as [->|(row & Hrow & Hfail)]; [reflexivity|].
  exfalso. clear Hrun Hps Hcor Hrows.
  assert (length Demo.rows = 3%nat) as Hlen by (vm_compute; reflexivity).
  rewrite Hlen in Hk.
  destruct k as [|[|[|k]]]; [..|lia];
    vm_compute in Hrow; injection Hrow as <-;
    vm_compute in Hfail; discriminate Hfail.
Defined.

Lemma update_return_witness :
  (length Demo.logits ≤ length Demo.labels)%nat
  ∧ total (update Demo.char_tokenizer Demo.standard_name Demo.logits
             Demo.labels Demo.new_metric).2 = 3%Z.
Proof.
  destruct (update_return Demo.char_tokenizer Demo.standard_name Demo.logits
              Demo.labels Demo.new_metric
              (update Demo.char_tokenizer Demo.standard_name Demo.logits
                 Demo.labels Demo.new_metric).2)
    as (Hle & Ht & _).
  - vm_compute. reflexivity.
  - split; [exact Hle|]. rewrite Ht. vm_compute. reflexivity.
Defined.

(** Two vectors that differ at the ids 3 and 100, away from the letters. *)
Lemma predict_reads_letter_ids_witness :
  predict Demo.char_tokenizer Demo.alpaca_name Demo.flat_logit
  = predict Demo.char_tokenizer Demo.alpaca_name Demo.flat_but_elsewhere.
Proof.
  apply (predict_reads_letter_ids Demo.char_tokenizer Demo.alpaca_name).
  intros s id Hs Hid. unfold letters in Hs.
  repeat (apply elem_of_cons in Hs as [->|Hs];
          [destruct Hid as [Hid|Hid]; vm_compute in Hid;
           injection Hid as <-; vm_compute; reflexivity|]).
  by apply elem_of_nil in Hs.
Defined.

(* ===================================================================== *)
(** * More on the test pass, the dump and the validation hooks *)
(* ===================================================================== *)

Lemma batch_sampler_nonempty {A} n (batch l : list A) :
  Forall (fun b => b ≠ []) (batch_sampler n batch l).
Proof.
  revert batch. induction l as [|x l IH]; intros batch; simpl.
  - destruct batch; by repeat constructor.
  - destruct (_ =? _)%nat; [constructor|]; try apply IH.
    by destruct batch.
Qed.

Section PassMore.

Context {F : Type} `{FloatOps F}.

Variable tokenizer : Tokenizer.
Variable model_name : string.
Variable model : Batch → list (list (list F)).
Variable padding_side truncation_side : side.

Local Abbreviation test_step' := (test_step tokenizer model_name model).
Local Abbreviation collate_fn' := (collate_fn tokenizer padding_side truncation_side).
Local Abbreviation test_loop' :=
  (test_loop tokenizer model_name model padding_side truncation_side).
Local Abbreviation trainer_test' :=
  (trainer_test tokenizer model_name model padding_side truncation_side).

Lemma test_step_sound batch enc m o m' :
  collate_fn' batch = Ok enc →
  test_step' enc m = (o, m') →
  sound m → index_error_only o ∧ sound m'.
Proof.
  intros Henc Hstep (Hc & Hp & Hl).
  destruct (collate_labels tokenizer padding_side truncation_side _ _ Henc)
    as (labels & Hlab & _).
  rewrite (test_step_labels tokenizer model_name model enc labels m Hlab) in Hstep.
  unfold bind, ret in Hstep.
  destruct (update _ _ _ _ m) as [o1 m1] eqn:Eu.
  apply update_outcome in Eu as (Ht & Hc1 & Ho).
  destruct o1 as [[]| |]; try done.
  - injection Hstep as <- <-. split; [done|].
    destruct Ho as (_ & _ & preds & Hps & Hlen & Hall).
    unfold sound. rewrite Hps, length_app. split; [lia|]. split; [lia|].
    by apply Forall_app.
  - injection Hstep as <- <-. destruct Ho as (-> & Hps & _). split; [done|].
    unfold sound. rewrite Hps. split; [lia|]. split; [lia|done].
Qed.

Lemma test_loop_sound batches m o m' :
  Forall (fun b => b ≠ []) batches →
  test_loop' batches m = (o, m') →
  sound m → index_error_only o ∧ sound m'.
Proof.
  intros Hne. revert m. induction Hne as [|b batches Hb _ IH]; intros m.
  - simpl. unfold ret. by intros [= <- <-].
  - cbn [test_loop]. unfold bind at 1. unfold lift.
    destruct (collate_fn' b) as [enc| |] eqn:Eenc;
      [|by destruct b|by destruct b].
    unfold bind. destruct (test_step' enc m) as [o1 m1] eqn:Es.
    intros Hrun Hm.
    destruct (test_step_sound b enc m o1 m1 Eenc Es Hm) as [Ho1 Hm1].
    destruct o1 as [enc'| |]; try done.
    + by apply (IH m1).
    + by injection Hrun as <- <-.
Qed.

(** X7. A test pass with a batch size that is not positive raises
    [ValueError] before the metric is reset. With a positive batch size
    the only exception it can raise is [IndexError], and whatever its
    outcome it leaves [0 <= correct <= total], no more recorded predictions
    than examples counted, and only "A", "B", "C", "D" as predictions. *)
Theorem trainer_test_outcome batch_size data_module metric :
  ((batch_size ≤ 0)%Z →
   trainer_test tokenizer model_name model padding_side truncation_side
     batch_size data_module metric = (Raise ValueError, metric))
  ∧ ((0 < batch_size)%Z →
     index_error_only
       (trainer_test tokenizer model_name model padding_side truncation_side
          batch_size data_module metric).1
     ∧ sound
         (trainer_test tokenizer model_name model padding_side truncation_side
            batch_size data_module metric).2).
Proof.
  unfold trainer_test, test_dataloader, on_test_start. split; intros Hsize.
  - destruct (Z.leb_spec batch_size 0) as [_|]; [done|lia].
  - destruct (Z.leb_spec batch_size 0) as [|_]; [lia|].
    unfold bind at 1. unfold lift. unfold bind, modify.
    destruct (test_loop' _ _) as [o m'] eqn:Eloop.
    apply test_loop_sound in Eloop; [done|apply batch_sampler_nonempty|].
    unfold sound. simpl. repeat split; (lia || constructor).
Qed.

Lemma test_step_golds batch enc m :
  collate_fn' batch = Ok enc →
  well_shaped tokenizer model_name
    (model (forward_batch model_name enc)) (length batch) = true →
  ∃ m',
    test_step' enc m = (Ok (forward_batch model_name enc), m')
    ∧ all_golds m'
      = (all_golds m ++ batch_decode tokenizer (default [] (enc !! "labels")))%list
    ∧ length (all_preds m') = (length (all_preds m) + length batch)%nat.
Proof.
  intros Henc Hshape.
  destruct (collate_labels tokenizer padding_side truncation_side _ _ Henc)
    as (labels & Hl & Hlen).
  apply andb_true_iff in Hshape as [Hn Hscore]. apply Nat.eqb_eq in Hn.
  destruct (select_position model_name _) as [rows| |] eqn:Erows; try done.
  simpl in Hscore.
  destruct (omap (predict tokenizer model_name) rows) as [preds| |] eqn:Epreds;
    try done.
  assert (length labels = length (model (forward_batch model_name enc)))
    as Hll by lia.
  pose proof (update_ok tokenizer model_name _ labels rows preds m
                Hll Erows Epreds) as Hupd.
  pose proof (omap_length _ _ _ Epreds) as Hlp.
  pose proof (omap_length _ _ _ Erows) as Hlr.
  eexists. split.
  { rewrite (test_step_labels tokenizer model_name model enc labels m Hl).
    unfold bind, ret. rewrite Hupd. reflexivity. }
  simpl. rewrite Hl, length_app. simpl. split; [done|lia].
Qed.

Lemma test_loop_golds batches m :
  batches_ok tokenizer model_name model padding_side truncation_side batches
  = true →
  decodes_labels tokenizer padding_side truncation_side batches = true →
  ∃ m',
    test_loop' batches m = (Ok tt, m')
    ∧ all_golds m' = (all_golds m ++ map output (concat batches))%list
    ∧ length (all_preds m')
      = (length (all_preds m) + length (concat batches))%nat.
Proof.
  revert m. induction batches as [|b batches IH]; intros m Hok Hdec.
  - exists m. simpl. unfold ret. rewrite app_nil_r. repeat split; lia.
  - simpl in Hok, Hdec. apply andb_true_iff in Hok as [Hb Hok].
    apply andb_true_iff in Hdec as [Hd Hdec].
    destruct (collate_fn' b) as [enc| |] eqn:Eenc; try done.
    apply bool_decide_eq_true in Hd.
    destruct (test_step_golds b enc m Eenc Hb) as (m1 & Hstep & Hg & Hp).
    destruct (IH m1 Hok Hdec) as (m' & Hloop & Hg' & Hp').
    exists m'. split.
    + cbn [test_loop]. unfold bind, lift. rewrite Eenc, Hstep. exact Hloop.
    + rewrite Hg', Hg, Hd, Hp', Hp. simpl. rewrite map_app, length_app.
      rewrite <- app_assoc. split; [done|lia].
Qed.

End PassMore.

Section Dump.

Context {F : Type} `{FloatOps F}.

Variable format_example : DataFrame → nat → bool → string.
Variable gen_prompt : DataFrame → string → Z → string.
Variable tokenizer : Tokenizer.
Variable subject : string.
Variable ntrain : Z.
Variable dev_df test_df : DataFrame.
Variable model_name : string.
Variable model : Batch → list (list (list F)).
Variable padding_side truncation_side : side.
Variable batch_size : Z.

Lemma test_entries_outputs entries :
  Forall2 (test_entry format_example gen_prompt tokenizer subject ntrain dev_df
             test_df) (index test_df) entries →
  map output entries = map gold test_df.
Proof.
  intros [Hlen Hall]%Forall2_index. apply list_eq. intros i.
  rewrite !list_lookup_fmap.
  destruct (test_df !! i) as [row|] eqn:Erow.
  - destruct (Hall i) as (e & -> & row' & k & Hrow' & Hout & _).
    { by eapply lookup_lt_Some. }
    simpl. congruence.
  - apply lookup_ge_None in Erow. rewrite lookup_ge_None_2 by lia. done.
Qed.

(** X8. After [prepare_data] and one test pass whose batches can all be
    scored, with a tokenizer that decodes the label rows of every batch
    back to the labels, [all_golds] is the last column of the test table,
    row by row, and [save_preds] writes one record per test row, in the
    order of the rows: the prediction, a tab, the gold letter of the row
    and a newline. *)
Theorem dump_in_test_order fuel self data_module metric :
  prepare_data format_example gen_prompt tokenizer subject ntrain dev_df
    test_df None fuel self = (Ok tt, data_module) →
  (0 < batch_size)%Z →
  batches_ok tokenizer model_name model padding_side truncation_side
    (batch_sampler (Z.to_nat batch_size) [] (testset data_module)) = true →
  decodes_labels tokenizer padding_side truncation_side
    (batch_sampler (Z.to_nat batch_size) [] (testset data_module)) = true →
  ∃ metric',
    trainer_test tokenizer model_name model padding_side truncation_side
      batch_size data_module metric = (Ok tt, metric')
    ∧ all_golds metric' = map gold test_df
    ∧ length (all_preds metric') = length test_df
    ∧ save_preds metric'
      = zip_with (fun pred row => pred ++ tab ++ gold row ++ newline)
          (all_preds metric') test_df.
Proof.
  intros Hprep Hsize Hok Hdec.
  pose proof (prepare_data_entries _ _ _ _ _ _ _ _ _ _ Hprep) as [Htest _].
  pose proof (test_entries_outputs _ Htest) as Hout.
  unfold trainer_test, test_dataloader, on_test_start.
  destruct (Z.leb_spec batch_size 0) as [|_]; [lia|].
  unfold bind at 1. unfold lift. unfold bind, modify.
  destruct (test_loop_golds tokenizer model_name model padding_side
              truncation_side _
              {| total := 0; correct := 0; all_preds := []; all_golds := [] |}
              Hok Hdec) as (m' & -> & Hg & Hp).
  rewrite batch_sampler_concat in *. simpl in *.
  exists m'. split; [done|]. rewrite Hg, Hout. split; [done|].
  split.
  - rewrite Hp. apply (f_equal length) in Hout. by rewrite !length_map in Hout.
  - unfold save_preds. rewrite Hg, Hout.
    generalize (all_preds m'). intros preds. clear.
    revert preds. induction test_df as [|row df IH]; intros [|p preds]; simpl;
      try done. by rewrite IH.
Qed.

End Dump.

Section ValidationFacts.

Variable tokenizer : Tokenizer.
Variable model_name : string.
Variable padding_side truncation_side : side.
Variable Loss : Type.
Variable loss : Batch → Loss.

Local Abbreviation validation_loop' :=
  (validation_loop tokenizer model_name padding_side truncation_side Loss loss).

Lemma validation_loop_standard batches val_loss :
  alpaca model_name = false →
  Forall (fun b => b ≠ []) batches →
  validation_loop' batches val_loss
  = (Ok tt,
     (val_loss
      ++ map (fun b => loss (tokenizer_call tokenizer padding_side
                               truncation_side (map input b) (map output b) 512))
           batches)%list).
Proof.
  intros Hstd Hne. revert val_loss.
  induction Hne as [|b batches Hb _ IH]; intros val_loss.
  - simpl. unfold ret. by rewrite app_nil_r.
  - cbn [validation_loop]. unfold bind, lift, validation_step. rewrite Hstd.
    unfold collate_fn. destruct b as [|e b]; [done|]. unfold modify.
    rewrite IH. by rewrite <- app_assoc.
Qed.

(** X9. A validation run of a model of the "alpaca" family raises
    [NotImplementedError] at the first batch, after [val_loss] has been
    emptied; on an empty validation set it returns. For any other model it
    returns with one loss per batch in [val_loss], in the order of the
    batches, whatever [val_loss] held before. *)
Theorem trainer_validate_outcome batch_size data_module val_loss :
  (0 < batch_size)%Z →
  trainer_validate tokenizer model_name padding_side truncation_side Loss loss
    batch_size data_module val_loss
  = if alpaca model_name then
      match valset data_module with
      | [] => (Ok tt, [])
      | _ => (Raise NotImplementedError, [])
      end
    else
      (Ok tt,
       map (fun b => loss (tokenizer_call tokenizer padding_side
                             truncation_side (map input b) (map output b) 512))
         (batch_sampler (Z.to_nat batch_size) [] (valset data_module))).
Proof.
  intros Hsize. unfold trainer_validate, val_dataloader, on_validation_start.
  destruct (Z.leb_spec batch_size 0) as [|_]; [lia|].
  unfold bind at 1. unfold lift. unfold bind at 1. unfold modify.
  destruct (alpaca model_name) eqn:Ealp.
  - pose proof (batch_sampler_nonempty (Z.to_nat batch_size) []
                  (valset data_module)) as Hne.
    pose proof (batch_sampler_concat (Z.to_nat batch_size) []
                  (valset data_module)) as Hcat.
    rewrite app_nil_l in Hcat.
    destruct (batch_sampler _ _ _) as [|b bs].
    + simpl in Hcat. by rewrite <- Hcat.
    + apply Forall_cons in Hne as [Hb _].
      assert (valset data_module ≠ []) as Hv.
      { rewrite <- Hcat. simpl. by destruct b. }
      destruct (valset data_module); [done|].
      cbn [validation_loop]. unfold bind, lift, validation_step.
      rewrite Ealp. unfold collate_fn. by destruct b.
  - rewrite validation_loop_standard; [done|done|apply batch_sampler_nonempty].
Qed.

End ValidationFacts.

(** A batch size of zero, and the pass over the three test rows of the
    running instance in batches of two. *)
Lemma trainer_test_outcome_witness :
  trainer_test Demo.char_tokenizer Demo.standard_name Demo.model Right Right
    0 Demo.prepared Demo.new_metric = (Raise ValueError, Demo.new_metric)
  ∧ index_error_only
      (trainer_test Demo.char_tokenizer Demo.standard_name Demo.model Right
         Right 2 Demo.prepared Demo.new_metric).1
  ∧ sound
      (trainer_test Demo.char_tokenizer Demo.standard_name Demo.model Right
         Right 2 Demo.prepared Demo.new_metric).2.
Proof.
  split.
  - apply (trainer_test_outcome Demo.char_tokenizer Demo.standard_name
             Demo.model Right Right 0 Demo.prepared Demo.new_metric). lia.
  - apply (trainer_test_outcome Demo.char_tokenizer Demo.standard_name
             Demo.model Right Right 2 Demo.prepared Demo.new_metric). lia.
Defined.

(** The one-character tokenizer decodes its own label rows. *)
Lemma dump_in_test_order_witness :
  ∃ metric',
    trainer_test Demo.char_tokenizer Demo.standard_name Demo.model Right Right
      2 Demo.prepared Demo.new_metric = (Ok tt, metric')
    ∧ all_golds metric' = map gold Demo.test_df
    ∧ length (all_preds metric') = length Demo.test_df
    ∧ save_preds metric'
      = zip_with (fun pred row => pred ++ tab ++ gold row ++ newline)
          (all_preds metric') Demo.test_df.
Proof.
  apply (dump_in_test_order Demo.format_example Demo.gen_prompt
           Demo.char_tokenizer Demo.subject 1 Demo.dev_df Demo.test_df
           Demo.standard_name Demo.model Right Right 2 0%nat
           {| testset := []; valset := [] |} Demo.prepared Demo.new_metric).
  - vm_compute. reflexivity.
  - lia.
  - vm_compute. reflexivity.
  - vm_compute. reflexivity.
Defined.

(** A model of the "alpaca" family on the two validation entries of the
    running instance, the loss standing for the number of rows of the
    batch. *)
Lemma trainer_validate_outcome_witness :
  trainer_validate Demo.char_tokenizer Demo.alpaca_name Right Right nat
    (fun b => length (default [] (b !! "input_ids"))) 2 Demo.prepared [7%nat]
  = (Raise NotImplementedError, []).
Proof.
  apply (trainer_validate_outcome Demo.char_tokenizer Demo.alpaca_name Right
           Right nat (fun b => length (default [] (b !! "input_ids"))) 2
           Demo.prepared [7%nat]).
  lia.
Defined.

(* ===================================================================== *)
(** * More on [eval.py]: the subjects *)
(* ===================================================================== *)

Lemma append_cons c s t : String c s ++ t = String c (s ++ t).
Proof. reflexivity. Qed.

Lemma append_empty_r s : s ++ "" = s.
Proof. induction s as [|c s IH]; [done|]. by rewrite append_cons, IH. Qed.

Lemma append_assoc s t u : (s ++ t) ++ u = s ++ t ++ u.
Proof. induction s as [|c s IH]; [done|]. by rewrite !append_cons, IH. Qed.

Lemma prefix_empty s : String.prefix "" s = true.
Proof. by destruct s. Qed.

Lemma prefix_app_r s t : String.prefix s (s ++ t) = true.
Proof.
  induction s as [|c s IH]; simpl; [apply prefix_empty|].
  by destruct (ascii_dec c c).
Qed.

Lemma prefix_app_inv s t : String.prefix s t = true → ∃ r, t = s ++ r.
Proof.
  revert t. induction s as [|c s IH]; intros t; [by exists t|].
  destruct t as [|c' t]; simpl; [done|].
  destruct (ascii_dec c c') as [<-|]; [|done].
  intros [r ->]%IH. by exists r.
Qed.

Lemma prefix_weaken s t r : String.prefix s t = true → String.prefix s (t ++ r) = true.
Proof.
  intros [u ->]%prefix_app_inv. rewrite append_assoc.
  apply prefix_app_r.
Qed.

Lemma contains_prefix sep s :
  String.prefix sep s = true → PyStr.contains sep s = true.
Proof. intros Hp. destruct s; cbn [PyStr.contains]; by rewrite Hp. Qed.

Lemma contains_app sep pre rest :
  PyStr.contains sep (pre ++ sep ++ rest) = true.
Proof.
  induction pre as [|c pre IH].
  - change ("" ++ sep ++ rest) with (sep ++ rest).
    apply contains_prefix, prefix_app_r.
  - rewrite append_cons. cbn [PyStr.contains]. rewrite IH. apply orb_true_r.
Qed.

(** A name that holds the separator is its part before the first
    separator, the separator, and a rest. *)
Lemma before_split sep s :
  PyStr.contains sep s = true → ∃ rest, s = before sep s ++ sep ++ rest.
Proof.
  induction s as [|c s IH]; cbn [PyStr.contains before].
  - rewrite orb_false_r. intros Hp. rewrite Hp.
    apply prefix_app_inv in Hp as [r Hr]. by exists r.
  - destruct (String.prefix sep (String c s)) eqn:Hp.
    + intros _. apply prefix_app_inv in Hp as [r Hr]. by exists r.
    + rewrite orb_false_l. intros [rest Hrest]%IH. exists rest.
      by rewrite append_cons, <- Hrest.
Qed.

Lemma before_app sep s : ∃ r, s = before sep s ++ r.
Proof.
  induction s as [|c s [r IH]]; cbn [before].
  - exists "". by destruct (String.prefix sep "").
  - destruct (String.prefix sep (String c s)).
    + by eexists.
    + exists r. by rewrite append_cons, <- IH.
Qed.

(** The part before the first separator does not hold the separator. *)
Lemma before_free sep s :
  sep ≠ "" → PyStr.contains sep (before sep s) = false.
Proof.
  intros Hsep.
  assert (String.prefix sep "" = false) as Hnil by (by destruct sep).
  induction s as [|c s IH]; cbn [before].
  - rewrite Hnil. cbn [PyStr.contains]. by rewrite Hnil.
  - destruct (String.prefix sep (String c s)) eqn:Hp.
    + cbn [PyStr.contains]. by rewrite Hnil.
    + cbn [PyStr.contains]. rewrite IH, orb_false_r.
      destruct (String.prefix sep (String c (before sep s))) eqn:Hq; [|done].
      destruct (before_app sep s) as [r Hr].
      apply (prefix_weaken _ _ r) in Hq. rewrite append_cons, <- Hr in Hq.
      congruence.
Qed.

(** No proper end of a name followed by ["_test.csv"] starts with
    ["_test.csv"]: the character ["_"] occurs in it once. *)
Lemma marker_prefix_app s :
  String.prefix "_test.csv" (s ++ "_test.csv") = true →
  s = "" ∨ String.prefix "_test.csv" s = true.
Proof.
  intros Hp.
  destruct s as [|c1 s]; [by left|]. right.
  rewrite append_cons in Hp. cbn [String.prefix] in *.
  destruct (ascii_dec _ c1) as [<-|]; [|done].
  do 8 (destruct s as [|? s]; [by vm_compute in Hp|];
        rewrite append_cons in Hp; cbn [String.prefix] in *;
        destruct (ascii_dec _ _) as [<-|]; [|done]).
  by destruct s.
Qed.

Lemma before_test_file_name s :
  PyStr.contains "_test.csv" s = false →
  before "_test.csv" (test_file_name s) = s.
Proof.
  unfold test_file_name. induction s as [|c s IH]; [done|].
  cbn [PyStr.contains]. intros [Hp Hc]%orb_false_iff.
  rewrite append_cons. cbn [before]. rewrite <- append_cons.
  destruct (String.prefix "_test.csv" (String c s ++ "_test.csv")) eqn:Hq.
  - apply (marker_prefix_app (String c s)) in Hq as [?|Hq]; [done|congruence].
  - by rewrite IH.
Qed.

#[global] Instance str_le_total : Total str_le.
Proof. intros s1 s2. apply String.leb_total. Qed.

Lemma elem_of_subjects listing subj :
  subj ∈ subjects listing
  ↔ ∃ f, f ∈ listing ∧ PyStr.contains "_test.csv" f = true
         ∧ subj = before "_test.csv" f.
Proof.
  unfold subjects. rewrite merge_sort_Permutation, list_elem_of_fmap.
  split.
  - intros (f & -> & [Hc Hf]%list_elem_of_filter). by exists f.
  - intros (f & Hf & Hc & ->). exists f. split; [done|].
    by apply list_elem_of_filter.
Qed.

(** X10. A table named [<s>_test.csv], for a name [s] that does not hold
    ["_test.csv"], is read back as the subject [s]: the subject is in the
    list, and the test table the data module opens for it is that file. *)
Theorem subjects_round_trip (listing : list string) (s : string) :
  PyStr.contains "_test.csv" s = false →
  test_file_name s ∈ listing →
  s ∈ subjects listing
  ∧ before "_test.csv" (test_file_name s) = s.
Proof.
  intros Hfree Hin. split; [|by apply before_test_file_name].
  apply elem_of_subjects. exists (test_file_name s). split; [done|].
  split; [|by rewrite before_test_file_name].
  unfold test_file_name.
  pose proof (contains_app "_test.csv" s "") as Hc.
  by rewrite append_empty_r in Hc.
Qed.

(** X11. The list of subjects is in ascending order. Each of its subjects
    is free of ["_test.csv"] and comes from a listed name that starts with
    the subject and ["_test.csv"]; the listed name may go on after that,
    and then it is not the file the data module opens for the subject. *)
Theorem subjects_sorted_from_listing (listing : list string) :
  Sorted str_le (subjects listing)
  ∧ ∀ subj, subj ∈ subjects listing →
      PyStr.contains "_test.csv" subj = false
      ∧ ∃ rest, test_file_name subj ++ rest ∈ listing.
Proof.
  split; [apply (Sorted_merge_sort str_le)|].
  intros subj (f & Hf & Hc & ->)%elem_of_subjects.
  split; [by apply before_free|].
  apply before_split in Hc as [rest Hrest]. exists rest.
  unfold test_file_name. rewrite append_assoc. by rewrite <- Hrest.
Qed.

Lemma subjects_round_trip_witness :
  "anatomy" ∈ subjects Demo.listing
  ∧ before "_test.csv" (test_file_name "anatomy") = "anatomy".
Proof.
  apply (subjects_round_trip Demo.listing "anatomy").
  - vm_compute. reflexivity.
  - change (test_file_name "anatomy") with "anatomy_test.csv".
    unfold Demo.listing. set_solver.
Defined.

(** The subject read from [algebra_test.csv.bak] is [algebra], and the
    table opened for it would be [algebra_test.csv]. *)
Lemma subjects_sorted_from_listing_witness :
  subjects Demo.listing = ["algebra"; "anatomy"; "geometry"]
  ∧ Sorted str_le (subjects Demo.listing)
  ∧ PyStr.contains "_test.csv" "algebra" = false
  ∧ ∃ rest, test_file_name "algebra" ++ rest ∈ Demo.listing.
Proof.
  assert (subjects Demo.listing = ["algebra"; "anatomy"; "geometry"]) as Hs
    by (vm_compute; reflexivity).
  split; [exact Hs|].
  destruct (subjects_sorted_from_listing Demo.listing) as [Hsorted Hfrom].
  split; [exact Hsorted|].
  apply (Hfrom "algebra"). rewrite Hs. apply elem_of_cons. by left.
Defined.

(* ===================================================================== *)
(** * More on [eval.py]: the aggregation and the report *)
(* ===================================================================== *)

Section AggregatorMore.

Variable subcategories : gmap string (list string).
Variable categories : gmap string (list string).

Local Abbreviation for_subjects' := (for_subjects subcategories categories).
Local Abbreviation init_agg' := (init_agg subcategories categories).
Local Abbreviation covers' := (covers subcategories categories).

Lemma init_covers : covers' init_agg'.
Proof.
  split.
  - intros s subcats sc Hs Hin. simpl.
    rewrite init_subcat_cors_lookup; [by eexists|].
    by eapply elem_of_all_subcats.
  - intros cat [m Hm]. simpl. unfold init_cat_cors.
    rewrite lookup_fmap, Hm. by eexists.
Qed.

Lemma init_subcat_cors_empty sc l :
  init_subcat_cors subcategories !! sc = Some l → l = [].
Proof.
  unfold init_subcat_cors. generalize (all_subcats subcategories).
  intros keys. induction keys as [|key keys IH]; simpl; [done|].
  destruct (decide (key = sc)) as [->|Hne].
  - rewrite lookup_insert_eq. by intros [= <-].
  - by rewrite lookup_insert_ne.
Qed.

Lemma init_subcat_cors_key sc l :
  init_subcat_cors subcategories !! sc = Some l → sc ∈ all_subcats subcategories.
Proof.
  unfold init_subcat_cors. generalize (all_subcats subcategories).
  intros keys. induction keys as [|key keys IH]; simpl; [done|].
  destruct (decide (key = sc)) as [->|Hne].
  - intros _. apply elem_of_cons. by left.
  - rewrite lookup_insert_ne by done. intros Hl. apply elem_of_cons. right.
    by apply IH.
Qed.

Lemma record_subject_covers s x a subcats :
  subcategories !! s = Some subcats → covers' a →
  ∃ a', record_subject subcategories categories s x a = Ok a' ∧ covers' a'.
Proof.
  intros Hs [Hsub Hcat].
  destruct (for_subcats_spec categories subcats x a)
    as (a1 & Ha1 & Hall1 & Hsc1 & Hc1); [intros sc Hin; by eapply Hsub|done|].
  unfold record_subject. rewrite Hs. cbn [of_option obind]. rewrite Ha1.
  cbn [obind]. eexists. split; [done|]. split; simpl.
  - intros s' subcats' sc Hs' Hin. rewrite Hsc1.
    destruct (Hsub s' subcats' sc Hs' Hin) as [l ->]. by eexists.
  - intros cat Hin. rewrite Hc1. destruct (Hcat cat Hin) as [l ->]. by eexists.
Qed.

(** The loop over the subjects returns, or stops with [KeyError] at the
    first subject that has no entry in [subcategories]. *)
Lemma for_subjects_outcome results a :
  covers' a →
  match for_subjects' results a with
  | Ok _ => Forall (fun r => is_Some (subcategories !! r.1)) results
  | Raise e =>
      e = KeyError ∧ Exists (fun r => subcategories !! r.1 = None) results
  | OutOfFuel => False
  end.
Proof.
  revert a. induction results as [|[s x] results IH]; intros a Hcov; simpl.
  - constructor.
  - destruct (subcategories !! s) as [subcats|] eqn:Hs.
    + destruct (record_subject_covers s x a subcats Hs Hcov) as (a' & -> & Hcov').
      simpl. specialize (IH a' Hcov').
      destruct (for_subjects' results a') as [a''| |]; try done.
      * constructor; [simpl; rewrite Hs; by eexists|done].
      * destruct IH as [-> Hex]. split; [done|]. by apply Exists_cons_tl.
    + unfold record_subject. rewrite Hs. simpl. split; [done|].
      by apply Exists_cons_hd.
Qed.

(** What the accumulators hold once the loop has returned. *)
Lemma for_subjects_lists results a :
  for_subjects' results init_agg' = Ok a →
  all_cors a = map snd results
  ∧ (∀ sc l, subcat_cors a !! sc = Some l →
       sc ∈ all_subcats subcategories
       ∧ l = recorded (subcat_hits subcategories sc) results)
  ∧ (∀ sc, sc ∈ all_subcats subcategories →
       subcat_cors a !! sc
       = Some (recorded (subcat_hits subcategories sc) results))
  ∧ (∀ cat, cat_cors a !! cat
            = (fun _ => recorded (cat_hits subcategories categories cat) results)
                <$> categories !! cat).
Proof.
  intros Hrun.
  pose proof (for_subjects_outcome results init_agg' init_covers) as Hpres.
  rewrite Hrun in Hpres.
  destruct init_covers as [Hsub Hcat].
  destruct (for_subjects_spec subcategories categories results init_agg'
              Hpres Hsub Hcat) as (a' & Ha' & Hall & Hsc & Hc).
  assert (a' = a) as -> by congruence. simpl in *.
  split; [done|]. split; [|split].
  - intros sc l. rewrite Hsc.
    destruct (init_subcat_cors subcategories !! sc) as [l0|] eqn:E; [|done].
    simpl. intros [= <-]. split; [by eapply init_subcat_cors_key|].
    by rewrite (init_subcat_cors_empty sc l0 E).
  - intros sc Hin. by rewrite Hsc, (init_subcat_cors_lookup _ _ Hin).
  - intros cat. rewrite Hc. unfold init_cat_cors. rewrite lookup_fmap.
    by destruct (categories !! cat).
Qed.

Lemma recorded_Forall (P : Z * Z → Prop) hits results :
  Forall P (map snd results) → Forall P (recorded hits results).
Proof.
  induction results as [|[s x] results IH]; [done|].
  intros [Hx Hrest]%Forall_cons. rewrite recorded_cons. apply Forall_app.
  split; [by apply Forall_replicate|by apply IH].
Qed.

Lemma sums_bounds (l : Cors) :
  Forall (fun x => (0 ≤ x.1 ≤ x.2)%Z) l → (0 ≤ sum_cors l ≤ sum_totals l)%Z.
Proof.
  unfold sum_cors, sum_totals. induction 1 as [|x l Hx _ IH]; simpl; lia.
Qed.

Lemma accuracy_bounds (l : Cors) q :
  accuracy l = Ok q → Forall (fun x => (0 ≤ x.1 ≤ x.2)%Z) l →
  (0 <= q <= 1)%Q.
Proof.
  intros Hacc Hall. apply sums_bounds in Hall.
  unfold accuracy in Hacc. destruct l as [|x l]; [done|].
  destruct (Z.eqb_spec (sum_totals (x :: l)) 0) as [|Hne]; [done|].
  injection Hacc as <-.
  assert (0 < inject_Z (sum_totals (x :: l)))%Q as Hpos.
  { change 0%Q with (inject_Z 0). rewrite <- Zlt_Qlt. lia. }
  split.
  - apply Qle_shift_div_l; [done|]. rewrite Qmult_0_l.
    change 0%Q with (inject_Z 0). rewrite <- Zle_Qle. lia.
  - apply Qle_shift_div_r; [done|]. rewrite Qmult_1_l.
    rewrite <- Zle_Qle. lia.
Qed.

(** X13. When every evaluated subject ends with [0 <= cor <= total], every
    accuracy the report computes, for a subcategory, a category or all
    subjects, lies between 0 and 1. *)
Theorem accuracies_between_0_and_1 (results : list (string * (Z * Z))) a :
  for_subjects subcategories categories results
    (init_agg subcategories categories) = Ok a →
  Forall (fun r => (0 ≤ r.2.1 ≤ r.2.2)%Z) results →
  (∀ subcat q, subcat_acc a subcat = Ok q → (0 <= q <= 1)%Q)
  ∧ (∀ cat q, cat_acc a cat = Ok q → (0 <= q <= 1)%Q)
  ∧ (∀ q, weighted_acc a = Ok q → (0 <= q <= 1)%Q).
Proof.
  intros Hrun Hall.
  apply for_subjects_lists in Hrun as (Hcors & Hsub & _ & Hcat).
  assert (Forall (fun x => (0 ≤ x.1 ≤ x.2)%Z) (map snd results)) as Hall'.
  { by apply Forall_fmap. }
  split; [|split].
  - intros sc q. unfold subcat_acc.
    destruct (subcat_cors a !! sc) as [l|] eqn:El; [|done]. simpl.
    destruct (Hsub sc l El) as [_ ->]. intros Hq.
    eapply accuracy_bounds; [exact Hq|]. by apply recorded_Forall.
  - intros cat q. unfold cat_acc. rewrite Hcat.
    destruct (categories !! cat); [|done]. simpl. intros Hq.
    eapply accuracy_bounds; [exact Hq|]. by apply recorded_Forall.
  - intros q. unfold weighted_acc. rewrite Hcors. intros Hq.
    by eapply accuracy_bounds.
Qed.

(** *** The report *)

Lemma sum_totals_pos (l : Cors) :
  Forall (fun x => (0 < x.2)%Z) l → l ≠ [] → (0 < sum_totals l)%Z.
Proof.
  unfold sum_totals. intros Hall Hne. destruct Hall as [|x l Hx Hl]; [done|].
  simpl. assert (0 ≤ foldr Z.add 0 (map snd l))%Z; [|lia].
  clear Hne. induction Hl as [|y l Hy _ IH]; simpl; lia.
Qed.

Lemma recorded_empty hits (results : list (string * (Z * Z))) :
  (∀ r, r ∈ results → hits r.1 = 0%nat) → recorded hits results = [].
Proof.
  induction results as [|[s x] results IH]; intros Hno; [done|].
  assert (hits s = 0%nat) as Hs.
  { apply (Hno (s, x)), elem_of_cons. by left. }
  rewrite recorded_cons, Hs, IH; [done|].
  intros r Hr. apply Hno, elem_of_cons. by right.
Qed.

Lemma recorded_hit hits (results : list (string * (Z * Z))) r :
  r ∈ results → (0 < hits r.1)%nat → recorded hits results ≠ [].
Proof.
  induction results as [|[s x] results IH]; [by intros ?%elem_of_nil|].
  rewrite recorded_cons. intros [->|Hr]%elem_of_cons Hpos.
  - simpl in Hpos. by destruct (hits s); [lia|].
  - intros [_ Hnil]%app_eq_nil. by apply IH.
Qed.

(** A report loop over groups that are empty or have a non-zero total
    returns the quotient of every group, or raises [ValueError] because
    some group is empty. *)
Lemma report_lines_cases (d : gmap string Cors) :
  (∀ key l, d !! key = Some l → l = [] ∨ sum_totals l ≠ 0%Z) →
  (report_lines d = Raise ValueError ∧ ∃ key, d !! key = Some [])
  ∨ (report_lines d = Ok (map (fun kv => (kv.1, ratio kv.2)) (map_to_list d))
     ∧ ∀ key l, d !! key = Some l → l ≠ []).
Proof.
  intros Hd. unfold report_lines.
  assert (∀ kv, kv ∈ map_to_list d → kv.2 = [] ∨ sum_totals kv.2 ≠ 0%Z) as Hl.
  { intros [key l] Hkv. apply elem_of_map_to_list in Hkv. by eapply Hd. }
  assert ((omap (fun kv => obind (accuracy kv.2) (fun q => Ok (kv.1, q)))
             (map_to_list d) = Raise ValueError
           ∧ ∃ kv, kv ∈ map_to_list d ∧ kv.2 = [])
          ∨ (omap (fun kv => obind (accuracy kv.2) (fun q => Ok (kv.1, q)))
               (map_to_list d)
             = Ok (map (fun kv => (kv.1, ratio kv.2)) (map_to_list d))
             ∧ ∀ kv, kv ∈ map_to_list d → kv.2 ≠ [])) as [[Hr Hex]|[Hr Hall]].
  { revert Hl. generalize (map_to_list d). intros kvs Hl.
    induction kvs as [|[key l] kvs IH].
    - right. split; [done|]. by intros kv ?%elem_of_nil.
    - cbn [omap]. destruct (Hl (key, l)) as [Hnil|Hsum];
        [apply elem_of_cons; by left|..]; simpl in *.
      + left. subst l. simpl. split; [done|]. exists (key, []).
        split; [apply elem_of_cons; by left|done].
      + destruct l as [|x l].
        { left. simpl. split; [done|]. exists (key, []).
          split; [apply elem_of_cons; by left|done]. }
        rewrite (accuracy_ratio (x :: l)) by done. cbn [obind].
        destruct IH as [[-> (kv & Hkv & Hnil)]|[-> Hall]].
        * intros kv Hkv. apply Hl, elem_of_cons. by right.
        * left. split; [done|]. exists kv. split; [|done].
          apply elem_of_cons. by right.
        * right. split; [done|].
          intros kv [->|Hkv]%elem_of_cons; [done|by apply Hall]. }
  - left. split; [done|]. destruct Hex as ([key l] & Hkv & Hnil).
    simpl in Hnil. subst l. exists key. by apply elem_of_map_to_list.
  - right. split; [done|]. intros key l Hkl.
    apply (Hall (key, l)). by apply elem_of_map_to_list.
Qed.

(** X14. Let every evaluated subject have counted at least one example.
    If the taxonomy has a subcategory or a category none of whose subjects
    was evaluated, or no subject was evaluated at all, the report
    raises [ValueError], after all subjects have been evaluated. If every
    subcategory and every category has an evaluated subject, it returns
    the quotient of the sums for each of them and for all subjects. *)
Theorem report_outcome (results : list (string * (Z * Z))) a :
  for_subjects subcategories categories results
    (init_agg subcategories categories) = Ok a →
  Forall (fun r => (0 < r.2.2)%Z) results →
  ((∃ subcat, subcat ∈ all_subcats subcategories
              ∧ ∀ r, r ∈ results → in_subcat subcategories subcat r.1 = false)
   ∨ (∃ cat, is_Some (categories !! cat)
             ∧ ∀ r, r ∈ results → in_cat subcategories categories cat r.1 = false)
   ∨ results = [] →
   report a = Raise ValueError)
  ∧ ((∀ subcat, subcat ∈ all_subcats subcategories →
        ∃ r, r ∈ results ∧ in_subcat subcategories subcat r.1 = true) →
     (∀ cat, is_Some (categories !! cat) →
        ∃ r, r ∈ results ∧ in_cat subcategories categories cat r.1 = true) →
     results ≠ [] →
     report a
     = Ok (map (fun kv => (kv.1, ratio kv.2)) (map_to_list (subcat_cors a)),
           map (fun kv => (kv.1, ratio kv.2)) (map_to_list (cat_cors a)),
           ratio (map snd results))).
Proof.
  intros Hrun Hpos.
  apply for_subjects_lists in Hrun as (Hcors & Hsub & Hsub' & Hcat).
  assert (Forall (fun x => (0 < x.2)%Z) (map snd results)) as Hpos'.
  { by apply Forall_fmap. }
  assert (∀ hits, recorded hits results = []
                  ∨ sum_totals (recorded hits results) ≠ 0%Z) as Hrec.
  { intros hits. destruct (recorded hits results) as [|x l] eqn:E; [by left|].
    right. rewrite <- E.
    pose proof (sum_totals_pos _ (recorded_Forall _ hits _ Hpos')) as Hs.
    rewrite E in Hs |- *. specialize (Hs ltac:(done)). lia. }
  assert (∀ key l, subcat_cors a !! key = Some l → l = [] ∨ sum_totals l ≠ 0%Z)
    as Hsubs.
  { intros key l Hl. destruct (Hsub key l Hl) as [_ ->]. apply Hrec. }
  assert (∀ key l, cat_cors a !! key = Some l → l = [] ∨ sum_totals l ≠ 0%Z)
    as Hcats.
  { intros key l. rewrite Hcat. destruct (categories !! key); [|done].
    simpl. intros [= <-]. apply Hrec. }
  assert (results ≠ [] → weighted_acc a = Ok (ratio (map snd results))) as Hw.
  { intros Hne. unfold weighted_acc. rewrite Hcors.
    apply accuracy_ratio; [by destruct results|].
    pose proof (sum_totals_pos _ Hpos') as Hs.
    assert (map snd results ≠ []) as Hne' by (by destruct results).
    specialize (Hs Hne'). lia. }
  assert (∀ sc, (∀ r, r ∈ results → in_subcat subcategories sc r.1 = false) →
            recorded (subcat_hits subcategories sc) results = []) as Hno_sub.
  { intros sc Hno. apply recorded_empty. intros r Hr. specialize (Hno r Hr).
    destruct (subcat_hits subcategories sc r.1) eqn:E; [done|].
    assert (in_subcat subcategories sc r.1 = true); [|congruence].
    apply in_subcat_hits. lia. }
  assert (∀ cat, (∀ r, r ∈ results →
                    in_cat subcategories categories cat r.1 = false) →
            recorded (cat_hits subcategories categories cat) results = [])
    as Hno_cat.
  { intros cat Hno. apply recorded_empty. intros r Hr. specialize (Hno r Hr).
    destruct (cat_hits subcategories categories cat r.1) eqn:E; [done|].
    assert (in_cat subcategories categories cat r.1 = true); [|congruence].
    apply in_cat_hits. lia. }
  unfold report.
  destruct (report_lines_cases (subcat_cors a) Hsubs)
    as [[Esub (ks & Hks)]|[Esub Hsne]]; rewrite Esub; cbn [obind].
  { split; [done|]. intros Hall _ _. exfalso.
    destruct (Hsub ks [] Hks) as [Hin Hnil].
    destruct (Hall ks Hin) as (r & Hr & Hmem).
    apply in_subcat_hits in Hmem. symmetry in Hnil.
    by apply (recorded_hit _ _ r Hr Hmem) in Hnil. }
  destruct (report_lines_cases (cat_cors a) Hcats)
    as [[Ecat (kc & Hkc)]|[Ecat Hcne]]; rewrite Ecat; cbn [obind].
  { split; [done|]. intros _ Hall _. exfalso.
    rewrite Hcat in Hkc.
    destruct (categories !! kc) as [m|] eqn:Em; [|done].
    simpl in Hkc. injection Hkc as Hnil.
    destruct (Hall kc) as (r & Hr & Hmem); [by rewrite Em|].
    apply in_cat_hits in Hmem.
    by apply (recorded_hit _ _ r Hr Hmem) in Hnil. }
  destruct (decide (results = [])) as [->|Hne].
  { simpl in Hcors. unfold weighted_acc. rewrite Hcors. simpl.
    split; [done|]. by intros _ _ ?. }
  rewrite (Hw Hne). cbn [obind]. split; [|done].
  intros [(sc & Hin & Hno)|[(cat & [m Hm] & Hno)|Hnil]]; [..|done]; exfalso.
  - apply (Hsne sc _ (Hsub' sc Hin)). by apply Hno_sub.
  - apply (Hcne cat (recorded (cat_hits subcategories categories cat) results)).
    + by rewrite Hcat, Hm.
    + by apply Hno_cat.
Qed.

End AggregatorMore.

(** The counters of the three running subjects: every accuracy of the
    report is between 0 and 1. *)
Lemma accuracies_between_0_and_1_witness :
  ∃ a,
    for_subjects Demo.subcategories Demo.categories Demo.results
      (init_agg Demo.subcategories Demo.categories) = Ok a
    ∧ (∀ subcat q, subcat_acc a subcat = Ok q → (0 <= q <= 1)%Q)
    ∧ (∀ cat q, cat_acc a cat = Ok q → (0 <= q <= 1)%Q)
    ∧ (∀ q, weighted_acc a = Ok q → (0 <= q <= 1)%Q).
Proof.
  assert (∃ a, for_subjects Demo.subcategories Demo.categories Demo.results
                 (init_agg Demo.subcategories Demo.categories) = Ok a)
    as [a Ha].
  { vm_compute. by eexists. }
  exists a. split; [exact Ha|].
  apply (accuracies_between_0_and_1 Demo.subcategories Demo.categories
           Demo.results a Ha).
  repeat constructor; simpl; lia.
Defined.

(** The three running subjects reach both subcategories and both
    categories: the report returns the three blocks of quotients. *)
Lemma report_outcome_witness :
  ∃ a,
    for_subjects Demo.subcategories Demo.categories Demo.results
      (init_agg Demo.subcategories Demo.categories) = Ok a
    ∧ report a
      = Ok (map (fun kv => (kv.1, ratio kv.2)) (map_to_list (subcat_cors a)),
            map (fun kv => (kv.1, ratio kv.2)) (map_to_list (cat_cors a)),
            ratio (map snd Demo.results)).
Proof.
  assert (∃ a, for_subjects Demo.subcategories Demo.categories Demo.results
                 (init_agg Demo.subcategories Demo.categories) = Ok a)
    as [a Ha].
  { vm_compute. by eexists. }
  exists a. split; [exact Ha|].
  destruct (report_outcome Demo.subcategories Demo.categories Demo.results a Ha)
    as [_ Hok].
  - repeat constructor; simpl; lia.
  - clear Ha. apply Hok.
    + intros subcat Hin. vm_compute in Hin.
      repeat (apply elem_of_cons in Hin as [->|Hin];
              [first [ solve [exists ("algebra", (1, 1))%Z;
                              split; [repeat constructor
                                     |vm_compute; reflexivity]]
                     | solve [exists ("anatomy", (2, 4))%Z;
                              split; [repeat constructor
                                     |vm_compute; reflexivity]] ]|]).
      by apply elem_of_nil in Hin.
    + intros cat Hcat. unfold Demo.categories in Hcat.
      apply lookup_insert_is_Some in Hcat as [<-|[_ Hcat]].
      { exists ("algebra", (1, 1))%Z. split; [repeat constructor|].
        vm_compute. reflexivity. }
      apply lookup_insert_is_Some in Hcat as [<-|[_ Hcat]].
      { exists ("anatomy", (2, 4))%Z. split; [repeat constructor|].
        vm_compute. reflexivity. }
      rewrite lookup_empty in Hcat. destruct Hcat as [x Hx]. discriminate Hx.
    + intros Hnil. discriminate Hnil.
Defined.

(* ===================================================================== *)
(** * The loop over the subjects *)
(* ===================================================================== *)

Section MainFacts.

Context {F : Type} `{FloatOps F}.

Variable format_example : DataFrame → nat → bool → string.
Variable gen_prompt : DataFrame → string → Z → string.
Variable tokenizer : Tokenizer.
Variable model_name : string.
Variable model : Batch → list (list (list F)).
Variable padding_side truncation_side : side.
Variable ntrain : Z.
Variable prompt_dir : option string.
Variable batch_size : Z.
Variable tables : string → DataFrame * DataFrame.
Variable subcategories : gmap string (list string).
Variable categories : gmap string (list string).

Local Abbreviation prepare' :=
  (prepare format_example gen_prompt tokenizer ntrain prompt_dir tables).
Local Abbreviation evaluate' :=
  (evaluate format_example gen_prompt tokenizer model_name model padding_side
     truncation_side ntrain prompt_dir batch_size tables).
Local Abbreviation subject_ok' :=
  (subject_ok format_example gen_prompt tokenizer model_name model padding_side
     truncation_side ntrain prompt_dir batch_size tables).
Local Abbreviation main_loop' :=
  (main_loop format_example gen_prompt tokenizer model_name model padding_side
     truncation_side ntrain prompt_dir batch_size tables subcategories
     categories).

(** A prepared data module has one test entry for every row of the test
    table. *)
Lemma prepare_length fuel subject data_module :
  prepare' fuel subject = Ok data_module →
  length (testset data_module) = length (tables subject).2.
Proof.
  unfold prepare.
  destruct (prepare_data _ _ _ _ _ _ _ _ _ _) as [o dm] eqn:E.
  destruct o as [[]| |]; try done. simpl. intros [= ->].
  destruct prompt_dir; [done|].
  by apply prepare_data_lengths in E as [Hn _].
Qed.

(** The counters of a subject do not depend on the metric the model comes
    with: the pass starts by resetting it. *)
Lemma evaluate_ok fuel subject m :
  (0 < batch_size)%Z →
  subject_ok' fuel subject = true →
  ∃ cor m',
    evaluate' fuel subject m
    = (Ok (cor, Z.of_nat (length (tables subject).2)), m')
    ∧ (0 ≤ cor ≤ Z.of_nat (length (tables subject).2))%Z.
Proof.
  intros Hsize Hok. unfold subject_ok in Hok. unfold evaluate.
  destruct (prepare' fuel subject) as [dm| |] eqn:Eprep; try done.
  apply prepare_length in Eprep as Hn.
  unfold bind at 1. unfold lift at 1.
  unfold trainer_test, test_dataloader, on_test_start.
  destruct (Z.leb_spec batch_size 0) as [|_]; [lia|].
  unfold bind, lift, modify.
  destruct (test_loop_ok tokenizer model_name model padding_side
              truncation_side _
              {| total := 0; correct := 0; all_preds := []; all_golds := [] |}
              Hok) as (m' & -> & Ht & Hc & _); [simpl; lia|].
  rewrite batch_sampler_concat in Ht. simpl in Ht, Hc.
  assert (total m' = Z.of_nat (length (tables subject).2)) as Ht' by lia.
  exists (correct m'), m'. rewrite <- Ht'. split; [done|lia].
Qed.

Lemma main_loop_spec fuel subjs a m :
  (0 < batch_size)%Z →
  Forall (fun subject => subject_ok' fuel subject = true) subjs →
  ∃ results,
    (main_loop' fuel subjs a m).1
    = for_subjects subcategories categories results a
    ∧ map fst results = subjs
    ∧ Forall (fun r => r.2.2 = Z.of_nat (length (tables r.1).2)
                       ∧ (0 ≤ r.2.1 ≤ r.2.2)%Z) results.
Proof.
  intros Hsize Hall. revert a m.
  induction Hall as [|subject subjs Hs _ IH]; intros a m.
  - by exists [].
  - destruct (evaluate_ok fuel subject m Hsize Hs) as (cor & m' & Hev & Hcor).
    cbn [main_loop]. unfold bind at 1. rewrite Hev.
    unfold bind at 1. unfold lift at 1.
    destruct (record_subject subcategories categories subject
                (cor, Z.of_nat (length (tables subject).2)) a)
      as [a'| |] eqn:Erec.
    + destruct (IH a' m') as (results & Hrun & Hfst & Hres).
      exists ((subject, (cor, Z.of_nat (length (tables subject).2)))
              :: results).
      split; [|split].
      * cbn [for_subjects]. rewrite Erec. exact Hrun.
      * simpl. by rewrite Hfst.
      * by constructor.
    + destruct (IH a m') as (results & _ & Hfst & Hres).
      exists ((subject, (cor, Z.of_nat (length (tables subject).2)))
              :: results).
      split; [|split].
      * cbn [for_subjects]. by rewrite Erec.
      * simpl. by rewrite Hfst.
      * by constructor.
    + destruct (IH a m') as (results & _ & Hfst & Hres).
      exists ((subject, (cor, Z.of_nat (length (tables subject).2)))
              :: results).
      split; [|split].
      * cbn [for_subjects]. by rewrite Erec.
      * simpl. by rewrite Hfst.
      * by constructor.
Qed.

(** X12. With a positive batch size, and every subject prepared and
    scorable, the loop of lines 51-68 never fails for a subject that has an
    entry in [subcategories]: it returns when every subject has one, and
    otherwise raises [KeyError], nothing else. *)
Theorem main_loop_key_error fuel subjs m :
  (0 < batch_size)%Z →
  Forall (fun subject =>
            subject_ok format_example gen_prompt tokenizer model_name model
              padding_side truncation_side ntrain prompt_dir batch_size tables
              fuel subject = true) subjs →
  match (main_loop format_example gen_prompt tokenizer model_name model
           padding_side truncation_side ntrain prompt_dir batch_size tables
           subcategories categories fuel subjs
           (init_agg subcategories categories) m).1 with
  | Ok _ => Forall (fun subject => is_Some (subcategories !! subject)) subjs
  | Raise e =>
      e = KeyError
      ∧ Exists (fun subject => subcategories !! subject = None) subjs
  | OutOfFuel => False
  end.
Proof.
  intros Hsize Hall.
  destruct (main_loop_spec fuel subjs (init_agg subcategories categories) m
              Hsize Hall) as (results & -> & <- & _).
  pose proof (for_subjects_outcome subcategories categories results
                (init_agg subcategories categories)
                (init_covers subcategories categories)) as Hout.
  destruct (for_subjects subcategories categories results _) as [a|e|];
    [|destruct Hout as [-> Hex]; split; [done|]|done].
  - by apply Forall_fmap.
  - by apply Exists_fmap.
Qed.

(** X15. With a positive batch size, and every subject of the listing
    prepared and scorable, [main] is the report of the aggregation of one
    pair of counters per subject, in sorted order, whatever metric the
    model starts with. The total of a subject is the number of rows of its
    test table and its correct count lies between 0 and that total. *)
Theorem main_aggregates_subjects fuel listing m :
  (0 < batch_size)%Z →
  Forall (fun subject =>
            subject_ok format_example gen_prompt tokenizer model_name model
              padding_side truncation_side ntrain prompt_dir batch_size tables
              fuel subject = true) (subjects listing) →
  ∃ results,
    (main format_example gen_prompt tokenizer model_name model padding_side
       truncation_side ntrain prompt_dir batch_size tables subcategories
       categories fuel listing m).1
    = obind (for_subjects subcategories categories results
               (init_agg subcategories categories)) report
    ∧ map fst results = subjects listing
    ∧ Forall (fun r => r.2.2 = Z.of_nat (length (tables r.1).2)
                       ∧ (0 ≤ r.2.1 ≤ r.2.2)%Z) results.
Proof.
  intros Hsize Hall.
  destruct (main_loop_spec fuel (subjects listing)
              (init_agg subcategories categories) m Hsize Hall)
    as (results & Hrun & Hfst & Hres).
  exists results. split; [|done].
  unfold main, bind. rewrite <- Hrun.
  by destruct (main_loop' _ _ _ _) as [[a| |] m'].
Qed.

End MainFacts.

(** The three subjects of the running listing, on the running tables, in
    batches of two. *)
Lemma main_aggregates_subjects_witness :
  ∃ results,
    (main Demo.format_example Demo.gen_prompt Demo.char_tokenizer
       Demo.standard_name Demo.model Right Right 1 None 2 Demo.tables
       Demo.subcategories Demo.categories 0 Demo.listing Demo.new_metric).1
    = obind (for_subjects Demo.subcategories Demo.categories results
               (init_agg Demo.subcategories Demo.categories)) report
    ∧ map fst results = subjects Demo.listing
    ∧ Forall (fun r => r.2.2 = Z.of_nat (length (Demo.tables r.1).2)
                       ∧ (0 ≤ r.2.1 ≤ r.2.2)%Z) results.
Proof.
  apply (main_aggregates_subjects Demo.format_example Demo.gen_prompt
           Demo.char_tokenizer Demo.standard_name Demo.model Right Right 1
           None 2 Demo.tables Demo.subcategories Demo.categories 0
           Demo.listing Demo.new_metric).
  - lia.
  - assert (subjects Demo.listing = ["algebra"; "anatomy"; "geometry"]) as ->.
    { vm_compute. reflexivity. }
    repeat constructor; vm_compute; reflexivity.
Defined.

(* ===================================================================== *)
(** * The batches of the test loader *)
(* ===================================================================== *)

Lemma batch_sampler_sizes {A} n (batch l : list A) :
  (length batch < n)%nat →
  Forall (fun b => (0 < length b ≤ n)%nat) (batch_sampler n batch l)
  ∧ ∀ i b, batch_sampler n batch l !! i = Some b →
      (S i < length (batch_sampler n batch l))%nat → length b = n.
Proof.
  revert batch. induction l as [|x l IH]; intros batch Hlt.
  - destruct batch as [|y batch]; simpl.
    + split; [constructor|]. by intros i b ?.
    + split; [constructor; [simpl in *; lia|constructor]|].
      intros [|i] b; simpl; [lia|done].
  - cbn [batch_sampler].
    destruct (Nat.eqb_spec (length (batch ++ [x])) n) as [Hn|Hn].
    + destruct (IH []) as [Hall Hfull]; [simpl; lia|].
      split; [constructor; [lia|done]|].
      intros [|i] b; simpl.
      * by intros [= <-] _.
      * intros Hb Hi. apply (Hfull i b Hb). lia.
    + apply IH. rewrite length_app in *. simpl in *. lia.
Qed.

Section LoaderFacts.

Variable tokenizer : Tokenizer.
Variable padding_side truncation_side : side.

(** X16. With a positive batch size the test loader yields the test set
    cut in order into batches of [batch_size] examples, the last batch
    holding the rest: every batch but the last is full, no batch is empty,
    and [collate_fn] returns on each of them. *)
Theorem test_dataloader_batches batch_size data_module :
  (0 < batch_size)%Z →
  ∃ batches,
    test_dataloader batch_size data_module = Ok batches
    ∧ concat batches = testset data_module
    ∧ Forall (fun b => (0 < length b ≤ Z.to_nat batch_size)%nat) batches
    ∧ (∀ i b, batches !! i = Some b → (S i < length batches)%nat →
         length b = Z.to_nat batch_size)
    ∧ Forall (fun b => is_ok (collate_fn tokenizer padding_side
                                truncation_side b) = true) batches.
Proof.
  intros Hsize. unfold test_dataloader.
  destruct (Z.leb_spec batch_size 0) as [|_]; [lia|].
  eexists. split; [done|]. split; [apply batch_sampler_concat|].
  destruct (batch_sampler_sizes (Z.to_nat batch_size) []
              (testset data_module)) as [Hall Hfull]; [simpl; lia|].
  split; [done|]. split; [done|].
  eapply Forall_impl; [exact Hall|]. intros b Hb. simpl in Hb.
  unfold collate_fn. destruct b; [simpl in Hb; lia|done].
Qed.

End LoaderFacts.

(** The three test entries of the running instance in batches of two: one
    full batch and the rest. *)
Lemma test_dataloader_batches_witness :
  ∃ batches,
    test_dataloader 2 Demo.prepared = Ok batches
    ∧ concat batches = testset Demo.prepared
    ∧ Forall (fun b => (0 < length b ≤ Z.to_nat 2)%nat) batches
    ∧ (∀ i b, batches !! i = Some b → (S i < length batches)%nat →
         length b = Z.to_nat 2)
    ∧ Forall (fun b => is_ok (collate_fn Demo.char_tokenizer Right Right b)
                       = true) batches.
Proof.
  apply (test_dataloader_batches Demo.char_tokenizer Right Right 2
           Demo.prepared).
  lia.
Defined.

(** The three subjects of the running listing have an entry each: the
    loop returns. *)
Lemma main_loop_key_error_witness :
  match (main_loop Demo.format_example Demo.gen_prompt Demo.char_tokenizer
           Demo.standard_name Demo.model Right Right 1 None 2 Demo.tables
           Demo.subcategories Demo.categories 0 (subjects Demo.listing)
           (init_agg Demo.subcategories Demo.categories) Demo.new_metric).1 with
  | Ok _ =>
      Forall (fun subject => is_Some (Demo.subcategories !! subject))
        (subjects Demo.listing)
  | Raise e =>
      e = KeyError
      ∧ Exists (fun subject => Demo.subcategories !! subject = None)
          (subjects Demo.listing)
  | OutOfFuel => False
  end.
Proof.
  apply (main_loop_key_error Demo.format_example Demo.gen_prompt
           Demo.char_tokenizer Demo.standard_name Demo.model Right Right 1
           None 2 Demo.tables Demo.subcategories Demo.categories 0
           (subjects Demo.listing) Demo.new_metric).
  - lia.
  - assert (subjects Demo.listing = ["algebra"; "anatomy"; "geometry"]) as ->.
    { vm_compute. reflexivity. }
    repeat constructor; vm_compute; reflexivity.
Defined.
